(** * hdls: a language server for the nand2tetris HDL

    A shallow embedding of [main.go]: the position translator
    ([getByteOffset]), the URI-to-path translation ([toFilePath],
    [baseDir], [builtInChipsDir]), the chip catalog ([collectChips]), the
    diagnostic walk ([publishDiagnostics]) and the three handlers
    ([OnDidOpenTextDocument], [OnDidChangeTextDocument], [OnDefinition]).

    Go strings and byte slices are byte sequences: they are modelled by
    [string] (a list of 8-bit [ascii]).  Go [int] is modelled by [Z]; the
    one place where a 64-bit conversion can wrap ([int(req.Position.Line)])
    is written out in [int_of_uint].  A Go run-time panic (index out of
    range, nil dereference) is the outcome [Panic]; a returned [error] is
    the outcome [Fail]. *)

From Stdlib Require Import ZArith String Ascii List Bool Lia.
From stdpp Require Import gmap strings list.

Import ListNotations.
#[local] Set Warnings "-clear-no-such-hyp".
Local Open Scope string_scope.
Local Open Scope list_scope.
Local Open Scope Z_scope.

(** ** Outcomes of Go code *)

(** Go errors that the program can observe.  [Wrapped] is
    [fmt.Errorf("<prefix>: %w", err)]. *)
Inductive error : Type :=
| ErrNotExist
| ErrPermission
| ErrOther (msg : string)
| Wrapped (prefix : string) (e : error).

(** [errors.Is(err, os.ErrNotExist)]: looks through the wrapping chain. *)
Fixpoint errors_Is_NotExist (e : error) : bool :=
  match e with
  | ErrNotExist => true
  | Wrapped _ e' => errors_Is_NotExist e'
  | _ => false
  end.

Inductive outcome (A : Type) : Type :=
| Done (a : A)
| Fail (e : error)
| Panic.
Arguments Done {A} a.
Arguments Fail {A} e.
Arguments Panic {A}.

#[global] Instance outcome_ret : MRet outcome := fun A a => Done a.

#[global] Instance outcome_bind : MBind outcome := fun A B k m =>
  match m with
  | Done a => k a
  | Fail e => Fail e
  | Panic => Panic
  end.

(** An index or nil-pointer access: [None] is the run-time panic. *)
Definition orPanic {A : Type} (o : option A) : outcome A :=
  match o with
  | Some a => Done a
  | None => Panic
  end.

(** [len(s)] of a Go string or byte slice. *)
Definition len (s : string) : Z := Z.of_nat (String.length s).

(** [len(l)] of a Go slice. *)
Definition llen {A : Type} (l : list A) : Z := Z.of_nat (List.length l).

(** [l[i]] for a Go [int] index: panics when out of range. *)
Definition index {A : Type} (l : list A) (i : Z) : outcome A :=
  if i <? 0 then Panic else orPanic (nth_error l (Z.to_nat i)).

(** [s[:hi]] on a string: panics unless [0 <= hi <= len(s)]. *)
Definition sliceTo (s : string) (hi : Z) : outcome string :=
  if (hi <? 0) || (len s <? hi) then Panic
  else Done (substring 0 (Z.to_nat hi) s).

(** [s[lo:hi]] on a byte slice: panics unless [0 <= lo <= hi <= len(s)].
    (Go checks [hi] against the capacity; the ranges sliced here are those
    of nodes of the tree parsed from [s], which lie within its length.) *)
Definition slice (s : string) (lo hi : Z) : outcome string :=
  if (lo <? 0) || (hi <? lo) || (len s <? hi) then Panic
  else Done (substring (Z.to_nat lo) (Z.to_nat (hi - lo)) s).

(** [int(u)] for a 64-bit [uint] [u]: values from [2^63] on wrap to
    negative numbers. *)
Definition int_of_uint (u : Z) : Z :=
  if u <? 2 ^ 63 then u else u - 2 ^ 64.

(** [uint(i)] for a 64-bit [int] [i]. *)
Definition uint_of_int (i : Z) : Z := i mod 2 ^ 64.

(** ** The Go standard library functions the program calls *)

Module strings.

Definition newline : ascii := ascii_of_nat 10.

(** [strings.Split(s, sep)] for a one-byte separator: the pieces between
    the separators, one more than there are separators. *)
Fixpoint Split (s : string) (sep : ascii) : list string :=
  match s with
  | EmptyString => [EmptyString]
  | String c r =>
      if Ascii.eqb c sep then EmptyString :: Split r sep
      else match Split r sep with
           | h :: t => String c h :: t
           | [] => [String c EmptyString]
           end
  end.

(** [strings.HasPrefix(s, prefix)]. *)
Definition HasPrefix (s pre : string) : bool := String.prefix pre s.

Fixpoint drop (n : nat) (s : string) : string :=
  match n, s with
  | O, _ => s
  | S n', String _ r => drop n' r
  | S _, EmptyString => EmptyString
  end.

Fixpoint rev (s : string) : string :=
  match s with
  | EmptyString => EmptyString
  | String c r => rev r +:+ String c EmptyString
  end.

(** [strings.TrimPrefix(s, prefix)]. *)
Definition TrimPrefix (s pre : string) : string :=
  if HasPrefix s pre then drop (String.length pre) s else s.

(** [strings.HasSuffix(s, suffix)]. *)
Definition HasSuffix (s suf : string) : bool := String.prefix (rev suf) (rev s).

(** [strings.TrimSuffix(s, suffix)]. *)
Definition TrimSuffix (s suf : string) : string :=
  if HasSuffix s suf
  then substring 0 (String.length s - String.length suf) s
  else s.

Definition byte (c : ascii) : N := N_of_ascii c.

(** The ASCII white space of [strings.TrimSpace]'s fast path:
    tab, newline, vertical tab, form feed, carriage return, space. *)
Definition asciiSpace (c : ascii) : bool :=
  let b := byte c in ((9 <=? b) && (b <=? 13) || (b =? 32))%N.

(** The two-byte UTF-8 encodings of the runes of [unicode.IsSpace]:
    U+0085 and U+00A0. *)
Definition isSpace2 (c1 c2 : ascii) : bool :=
  ((byte c1 =? 194) && ((byte c2 =? 133) || (byte c2 =? 160)))%N.

(** The three-byte ones: U+1680, U+2000..U+200A, U+2028, U+2029, U+202F,
    U+205F, U+3000. *)
Definition isSpace3 (c1 c2 c3 : ascii) : bool :=
  let b1 := byte c1 in let b2 := byte c2 in let b3 := byte c3 in
  ((b1 =? 225) && (b2 =? 154) && (b3 =? 128)
   || (b1 =? 226) && (b2 =? 128)
      && ((128 <=? b3) && (b3 <=? 138) || (b3 =? 168) || (b3 =? 169) || (b3 =? 175))
   || (b1 =? 226) && (b2 =? 129) && (b3 =? 159)
   || (b1 =? 227) && (b2 =? 128) && (b3 =? 128))%N.

(** [strings.TrimLeftFunc(s, unicode.IsSpace)]: drops the leading white
    space runes. *)
Fixpoint trimLeftSpace (s : string) : string :=
  match s with
  | EmptyString => EmptyString
  | String c1 r1 =>
      if asciiSpace c1 then trimLeftSpace r1
      else match r1 with
           | String c2 r2 =>
               if isSpace2 c1 c2 then trimLeftSpace r2
               else match r2 with
                    | String c3 r3 =>
                        if isSpace3 c1 c2 c3 then trimLeftSpace r3 else s
                    | EmptyString => s
                    end
           | EmptyString => s
           end
  end.

(** The same scan over the reversed string, for the trailing runes. *)
Fixpoint trimLeftSpaceRev (s : string) : string :=
  match s with
  | EmptyString => EmptyString
  | String c1 r1 =>
      if asciiSpace c1 then trimLeftSpaceRev r1
      else match r1 with
           | String c2 r2 =>
               if isSpace2 c2 c1 then trimLeftSpaceRev r2
               else match r2 with
                    | String c3 r3 =>
                        if isSpace3 c3 c2 c1 then trimLeftSpaceRev r3 else s
                    | EmptyString => s
                    end
           | EmptyString => s
           end
  end.

(** [strings.TrimRightFunc(s, unicode.IsSpace)]. *)
Definition trimRightSpace (s : string) : string := rev (trimLeftSpaceRev (rev s)).

(** [strings.TrimSpace(s)]: leading and trailing white space removed, as
    defined by Unicode. *)
Definition TrimSpace (s : string) : string := trimRightSpace (trimLeftSpace s).

(** [strings.Join(elems, sep)]. *)
Fixpoint Join (elems : list string) (sep : string) : string :=
  match elems with
  | [] => EmptyString
  | [e] => e
  | e :: rest => e +:+ sep +:+ Join rest sep
  end.

End strings.

Module url.

Definition ishex (c : ascii) : bool :=
  let b := strings.byte c in
  ((48 <=? b) && (b <=? 57) || (97 <=? b) && (b <=? 102) || (65 <=? b) && (b <=? 70))%N.

Definition unhex (c : ascii) : N :=
  let b := strings.byte c in
  (if (48 <=? b) && (b <=? 57) then b - 48
   else if (97 <=? b) && (b <=? 102) then b - 97 + 10
   else if (65 <=? b) && (b <=? 70) then b - 65 + 10
   else 0)%N.

Definition percent : ascii := ascii_of_nat 37.
Definition plus : ascii := ascii_of_nat 43.
Definition space : ascii := ascii_of_nat 32.

(** [url.QueryUnescape(s)]: ["%AB"] becomes the byte [0xAB] and ['+']
    becomes a space; [None] is the [EscapeError] for a ['%'] that is not
    followed by two hexadecimal digits. *)
Fixpoint QueryUnescape (s : string) : option string :=
  match s with
  | EmptyString => Some EmptyString
  | String c r =>
      if Ascii.eqb c percent then
        match r with
        | String h1 (String h2 r') =>
            if ishex h1 && ishex h2
            then String (ascii_of_N (unhex h1 * 16 + unhex h2)) <$> QueryUnescape r'
            else None
        | _ => None
        end
      else if Ascii.eqb c plus then String space <$> QueryUnescape r
      else String c <$> QueryUnescape r
  end.

End url.

Module filepath.

Definition Separator : ascii := ascii_of_nat 47.
Definition dot : ascii := ascii_of_nat 46.

(** One step of [Clean] over the path elements; [out] is the stack of
    the elements kept so far, the last one first. *)
Definition cleanStep (rooted : bool) (out : list string) (elem : string) : list string :=
  if String.eqb elem EmptyString || String.eqb elem "." then out
  else if String.eqb elem ".." then
    match out with
    | top :: out' => if String.eqb top ".." then elem :: out else out'
    | [] => if rooted then out else [elem]
    end
  else elem :: out.

(** [filepath.Clean(path)] on Unix: separators are merged, ["."]
    elements are dropped, an inner [".."] removes the element before it,
    a [".."] at the root is dropped; the empty result is ["."]. *)
Definition Clean (path : string) : string :=
  if String.eqb path EmptyString then "."
  else
    let rooted := strings.HasPrefix path "/" in
    let out := fold_left (cleanStep rooted) (strings.Split path Separator) [] in
    let body := strings.Join (List.rev out) "/" in
    if rooted then "/" +:+ body
    else if String.eqb body EmptyString then "." else body.

(** [filepath.Join(elem...)]: the leading empty elements are ignored,
    the rest is joined by the separator and cleaned. *)
Fixpoint Join (elem : list string) : string :=
  match elem with
  | [] => EmptyString
  | e :: rest =>
      if String.eqb e EmptyString then Join rest
      else Clean (strings.Join elem "/")
  end.

(** The path up to and with its last separator, reversed path in hand. *)
Fixpoint dropToSeparator (r : string) : string :=
  match r with
  | EmptyString => EmptyString
  | String c r' => if Ascii.eqb c Separator then r else dropToSeparator r'
  end.

(** The last element of the path, reversed path in hand. *)
Fixpoint takeToSeparator (r : string) : string :=
  match r with
  | EmptyString => EmptyString
  | String c r' =>
      if Ascii.eqb c Separator then EmptyString else String c (takeToSeparator r')
  end.

(** [filepath.Dir(path)]: all but the last element, cleaned. *)
Definition Dir (path : string) : string :=
  Clean (strings.rev (dropToSeparator (strings.rev path))).

Fixpoint dropSeparators (r : string) : string :=
  match r with
  | String c r' => if Ascii.eqb c Separator then dropSeparators r' else r
  | EmptyString => EmptyString
  end.

(** [filepath.Base(path)]: the last element, trailing separators
    removed first. *)
Definition Base (path : string) : string :=
  if String.eqb path EmptyString then "."
  else
    let r := dropSeparators (strings.rev path) in
    let b := strings.rev (takeToSeparator r) in
    if String.eqb b EmptyString then "/" else b.

(** The scan of [Ext] from the end of the path: [acc] holds the bytes
    already passed. *)
Fixpoint extScan (r : string) (acc : string) : string :=
  match r with
  | EmptyString => EmptyString
  | String c r' =>
      if Ascii.eqb c Separator then EmptyString
      else if Ascii.eqb c dot then String c acc
      else extScan r' (String c acc)
  end.

(** [filepath.Ext(path)]: the suffix from the last dot of the last
    element on, empty when there is none. *)
Definition Ext (path : string) : string := extScan (strings.rev path) EmptyString.

End filepath.

(** ** URI to path *)

Definition ext : string := ".hdl".
Definition nodeKindChipDefinition : string := "chip_definition".
Definition nodeKindPart : string := "part".

(** [enEscapeUrl, _ := url.QueryUnescape(...)]: the error is dropped and
    the string of a failed call is empty. *)
Definition toFilePath (uri : string) : string :=
  let enEscapeUrl := default EmptyString (url.QueryUnescape (strings.TrimSpace uri)) in
  strings.TrimPrefix enEscapeUrl "file:".

Definition baseDir (uri : string) : string :=
  filepath.Dir (toFilePath uri).

Definition builtInChipsDir (uri : string) : string :=
  let baseDir := filepath.Join [baseDir uri; ".."; ".."] in
  let baseDir := filepath.Clean baseDir in
  filepath.Join [baseDir; "tools"; "builtInChips"].

(** The string of one newline byte. *)
Definition nl : string := String strings.newline EmptyString.

(** ** Position translator *)

(** The loop [for i := 0; i < line; i++ { offset += len(lines[i]) + 1 }],
    run from index [i] for [n] more iterations. *)
Fixpoint sumLines (lines : list string) (i : Z) (n : nat) (offset : Z) : outcome Z :=
  match n with
  | O => Done offset
  | S n' =>
      l ← index lines i;
      sumLines lines (i + 1) n' (offset + (len l + 1))
  end.

Definition getByteOffset (text : string) (line char : Z) : outcome Z :=
  let lines := strings.Split text strings.newline in
  if line >? llen lines then Done (len text)
  else
    offset ← sumLines lines 0 (Z.to_nat line) 0;
    l ← index lines line;
    pre ← sliceTo l char;
    Done (offset + len pre).

(** ** Syntax trees of the parsing engine *)

(** [tree_sitter.Point]. *)
Record Point : Type := mkPoint { Row : Z; Column : Z }.

(** A [tree_sitter.Node] with what the program reads of it.  [FieldName]
    is the field under which the node hangs in its parent, if any.  A
    [*tree_sitter.Node] that may be nil is an [option Node]. *)
#[warnings="-register-all"]
Inductive Node : Type := mkNode {
  Kind : string;
  IsNamed : bool;
  IsError : bool;
  FieldName : option string;
  StartByte : Z;
  EndByte : Z;
  StartPosition : Point;
  EndPosition : Point;
  Children : list Node
}.

(** [n.ChildByFieldName(name)]: the first child with that field name, nil
    when there is none. *)
Definition ChildByFieldName (n : Node) (name : string) : option Node :=
  List.find (fun c => bool_decide (FieldName c = Some name)) (Children n).

(** [n.Child(i)]: nil when [i] is out of range. *)
Definition Child (n : Node) (i : nat) : option Node := nth_error (Children n) i.

(** The nodes [n.NamedChild(0)], ..., [n.NamedChild(n.NamedChildCount()-1)]. *)
Definition NamedChildren (n : Node) : list Node := List.filter IsNamed (Children n).

(** [n.DescendantForByteRange(lo, hi)] with the parent of the node found:
    the walk goes down into the first child that ends at or after [hi] and
    after [lo], as long as that child starts at or before [lo]; the node
    where it stops is the smallest one spanning the range.  The parent of
    the root is nil. *)
Fixpoint descend (n : Node) (parent : option Node) (lo hi : Z) : Node * option Node :=
  match n with
  | mkNode _ _ _ _ _ _ _ _ children =>
      (fix scan (cs : list Node) : Node * option Node :=
         match cs with
         | [] => (n, parent)
         | c :: cs' =>
             if (EndByte c <? hi) || (EndByte c <=? lo) then scan cs'
             else if lo <? StartByte c then (n, parent)
             else descend c (Some n) lo hi
         end) children
  end.

Definition DescendantForByteRange (root : Node) (lo hi : Z) : Node :=
  fst (descend root None lo hi).

(** [root.DescendantForByteRange(lo, hi).Parent()]. *)
Definition DescendantParent (root : Node) (lo hi : Z) : option Node :=
  snd (descend root None lo hi).

(** ** Protocol types ([defines]) *)

Record Position : Type := mkPosition { Line : Z; Character : Z }.

Record Range : Type := mkRange { Start : Position; End_ : Position }.

Inductive DiagnosticSeverity : Type := DiagnosticSeverityError.

Record Diagnostic : Type := mkDiagnostic {
  DiagRange : Range;
  Severity : DiagnosticSeverity;
  Message : string
}.

Record PublishDiagnosticsParams : Type := mkPublishDiagnosticsParams {
  Uri : string;
  Version : Z;
  Diagnostics : list Diagnostic
}.

Record LocationLink : Type := mkLocationLink {
  TargetUri : string;
  TargetRange : Range;
  TargetSelectionRange : Range
}.

(** [req.TextDocument] of a [DidOpenTextDocumentParams]. *)
Record DidOpenTextDocumentParams : Type := mkDidOpen {
  open_Uri : string;
  open_Text : string;
  open_Version : Z
}.

(** The [Text] of a content change is an [interface{}]: a string, or
    something else on which the assertion [.(string)] panics. *)
Inductive any : Type :=
| AnyString (s : string)
| AnyOther.

Record DidChangeTextDocumentParams : Type := mkDidChange {
  change_Uri : string;
  change_Version : Z;
  ContentChanges : list any
}.

(** Line and character of the request are [uint]s. *)
Record DefinitionParams : Type := mkDefinitionParams {
  def_Uri : string;
  def_Position : Position
}.

#[global] Instance Point_eq_dec : EqDecision Point.
Proof. solve_decision. Defined.
#[global] Instance Position_eq_dec : EqDecision Position.
Proof. solve_decision. Defined.
#[global] Instance Range_eq_dec : EqDecision Range.
Proof. solve_decision. Defined.
#[global] Instance DiagnosticSeverity_eq_dec : EqDecision DiagnosticSeverity.
Proof. solve_decision. Defined.
#[global] Instance Diagnostic_eq_dec : EqDecision Diagnostic.
Proof. solve_decision. Defined.

(** ** The world outside the process *)

(** One call of the function handed to [filepath.WalkDir]: the path, the
    entry's [IsDir()], and the error the walk reports for it (a failed
    [Lstat] of the root, a failed [ReadDir] of a directory). *)
Record WalkCall : Type := mkWalkCall {
  walk_path : string;
  walk_isDir : bool;
  walk_err : option error
}.

(** The capabilities the program consumes.  [Parse] is
    [parser.Parse(source, nil).RootNode()]; [Stat] and [ReadFile] are [os]'s;
    [WalkDir dir] lists, in order, the calls [filepath.WalkDir(dir, fn)]
    makes to [fn] as long as [fn] returns nil; [Marshal] and
    [SendNotification] give the error, if any, of [json.Marshal] and of
    the transport. *)
Record World : Type := mkWorld {
  Parse : string -> Node;
  Stat : string -> option error;
  ReadFile : string -> string + error;
  WalkDir : string -> list WalkCall;
  Marshal : PublishDiagnosticsParams -> option error;
  SendNotification : PublishDiagnosticsParams -> option error
}.

(** ** Diagnostics *)

(** The nil receiver panics at [n.StartPosition()]. *)
Definition newDiagnostic (n : option Node) (msg : string) : outcome Diagnostic :=
  n ← orPanic n;
  Done {| DiagRange :=
            {| Start := {| Line := Row (StartPosition n); Character := Column (StartPosition n) |};
               End_ := {| Line := Row (EndPosition n); Character := Column (EndPosition n) |} |};
          Severity := DiagnosticSeverityError;
          Message := msg |}.

Definition dquote : string := String (ascii_of_nat 34) EmptyString.

Definition msgSelf (chipName : string) : string :=
  "Cannot use chip " +:+ chipName +:+ " to implement itself".
Definition msgUndefined (chipName : string) : string :=
  "Undefined chip name: " +:+ chipName.
Definition msgSemicolon : string := "Expected " +:+ dquote +:+ ";" +:+ dquote.

(** The variables the closure [walk] of [publishDiagnostics] captures and
    assigns. *)
Record walkState : Type := mkWalkState {
  implementingChipName : string;
  diagnostics : list Diagnostic
}.

(** [case nodeKindChipDefinition]. *)
Definition visitChipDefinition (source : string) (n : Node) (st : walkState) : outcome walkState :=
  match ChildByFieldName n "name" with
  | Some name =>
      t ← slice source (StartByte name) (EndByte name);
      Done {| implementingChipName := t; diagnostics := diagnostics st |}
  | None => Done st
  end.

(** [case nodeKindPart], the block on the [chip_name] field. *)
Definition checkChipName (implementedChips : gset string) (source : string)
    (n : Node) (st : walkState) : outcome walkState :=
  match ChildByFieldName n "chip_name" with
  | Some name =>
      chipName ← slice source (StartByte name) (EndByte name);
      ds ← (if String.eqb chipName (implementingChipName st)
            then d ← newDiagnostic (Some name) (msgSelf chipName);
                 Done (diagnostics st ++ [d])
            else Done (diagnostics st));
      ds ← (if bool_decide (chipName ∈ implementedChips)
            then Done ds
            else d ← newDiagnostic (Some name) (msgUndefined chipName);
                 Done (ds ++ [d]));
      Done {| implementingChipName := implementingChipName st; diagnostics := ds |}
  | None => Done st
  end.

(** [case nodeKindPart], the loop over [n.Child(i)] from the child list
    [children] on: it ends at the first error node. *)
Fixpoint scanChildren (source : string) (children : list Node) (ds : list Diagnostic)
    : outcome (list Diagnostic) :=
  match children with
  | [] => Done ds
  | child :: rest =>
      if IsError child then
        childText ← slice source (StartByte child) (EndByte child);
        if strings.HasPrefix (strings.TrimSpace childText) ")"
        then d ← newDiagnostic (Child child 1) msgSemicolon;
             Done (ds ++ [d])
        else Done ds
      else scanChildren source rest ds
  end.

Definition visitPart (implementedChips : gset string) (source : string)
    (n : Node) (st : walkState) : outcome walkState :=
  st ← checkChipName implementedChips source n st;
  ds ← scanChildren source (Children n) (diagnostics st);
  Done {| implementingChipName := implementingChipName st; diagnostics := ds |}.

(** The [switch strings.TrimSpace(n.Kind())] of [walk]. *)
Definition visit (implementedChips : gset string) (source : string)
    (n : Node) (st : walkState) : outcome walkState :=
  let kind := strings.TrimSpace (Kind n) in
  if String.eqb kind nodeKindChipDefinition then visitChipDefinition source n st
  else if String.eqb kind nodeKindPart then visitPart implementedChips source n st
  else Done st.

(** The closure [walk] of [publishDiagnostics]. *)
Fixpoint walk (implementedChips : gset string) (source : string)
    (n : Node) (st : walkState) : outcome walkState :=
  match n with
  | mkNode _ _ _ _ _ _ _ _ children =>
      st ← visit implementedChips source n st;
      (fix walkChildren (cs : list Node) (st : walkState) : outcome walkState :=
         match cs with
         | [] => Done st
         | c :: cs' =>
             if IsNamed c then
               st ← walk implementedChips source c st;
               walkChildren cs' st
             else walkChildren cs' st
         end) children st
  end.

(** ** The chip catalog *)

(** The function literal handed to [filepath.WalkDir] in [collectChips]:
    the catalog after the call and the error returned. *)
Definition walkDirFn (chips : gset string) (c : WalkCall) : gset string * option error :=
  match walk_err c with
  | Some err => (chips, Some err)
  | None =>
      if negb (walk_isDir c) && String.eqb (filepath.Ext (walk_path c)) ext
      then ({[ strings.TrimSuffix (filepath.Base (walk_path c)) ext ]} ∪ chips, None)
      else (chips, None)
  end.

(** [filepath.WalkDir] over the calls it makes: it stops at the first call
    that returns an error, and returns it. *)
Fixpoint runWalkDir (calls : list WalkCall) (chips : gset string) : gset string * option error :=
  match calls with
  | [] => (chips, None)
  | c :: rest =>
      match walkDirFn chips c with
      | (chips', Some err) => (chips', Some err)
      | (chips', None) => runWalkDir rest chips'
      end
  end.

(** [collectChips(dir, chips)]: the map [chips] is updated in place, so
    the additions made before an error stay. *)
Definition collectChips (w : World) (dir : string) (chips : gset string)
    : gset string * option error :=
  match runWalkDir (WalkDir w dir) chips with
  | (chips', Some err) => (chips', Some (Wrapped "error walking dir" err))
  | (chips', None) => (chips', None)
  end.

(** ** The server *)

(** The maps [main] creates and the closures share, and the notifications
    handed to the transport so far. *)
Record Server : Type := mkServer {
  implementedChips : gset string;
  openFiles : gmap string string;
  sent : list PublishDiagnosticsParams
}.

Definition readFile (w : World) (uri : string) : outcome string :=
  match ReadFile w (toFilePath uri) with
  | inl source => Done source
  | inr err => Fail err
  end.

Definition publishDiagnostics (w : World) (source : string) (uri : string) (version : Z)
    (s : Server) : Server * outcome unit :=
  let tree := Parse w source in
  match walk (implementedChips s) source tree
             {| implementingChipName := EmptyString; diagnostics := [] |} with
  | Done st =>
      let diagnosticsParams :=
        {| Uri := uri; Version := version; Diagnostics := diagnostics st |} in
      match Marshal w diagnosticsParams with
      | Some err => (s, Fail (Wrapped "error marshalling diagnostic params" err))
      | None =>
          match SendNotification w diagnosticsParams with
          | Some err => (s, Fail (Wrapped "error sending notification" err))
          | None =>
              ({| implementedChips := implementedChips s;
                  openFiles := openFiles s;
                  sent := sent s ++ [diagnosticsParams] |}, Done tt)
          end
      end
  | Fail err => (s, Fail err)
  | Panic => (s, Panic)
  end.

Definition OnDidOpenTextDocument (w : World) (req : DidOpenTextDocumentParams)
    (s : Server) : Server * outcome unit :=
  let uri := open_Uri req in
  let source := open_Text req in
  let files := <[uri := source]> (openFiles s) in
  match collectChips w (builtInChipsDir uri) (implementedChips s) with
  | (chips, Some err) =>
      ({| implementedChips := chips; openFiles := files; sent := sent s |},
       Fail (Wrapped "collect primitive builtin chips" err))
  | (chips, None) =>
      match collectChips w (baseDir uri) chips with
      | (chips, Some err) =>
          ({| implementedChips := chips; openFiles := files; sent := sent s |},
           Fail (Wrapped "collect implemented chips" err))
      | (chips, None) =>
          publishDiagnostics w source (open_Uri req) (open_Version req)
            {| implementedChips := chips; openFiles := files; sent := sent s |}
      end
  end.

(** The loop over [req.ContentChanges]. *)
Fixpoint publishChanges (w : World) (uri : string) (version : Z)
    (changes : list any) (s : Server) : Server * outcome unit :=
  match changes with
  | [] => (s, Done tt)
  | contentChange :: rest =>
      match contentChange with
      | AnyString text =>
          match publishDiagnostics w text uri version s with
          | (s', Done _) => publishChanges w uri version rest s'
          | (s', r) => (s', r)
          end
      | AnyOther => (s, Panic)
      end
  end.

Definition OnDidChangeTextDocument (w : World) (req : DidChangeTextDocumentParams)
    (s : Server) : Server * outcome unit :=
  publishChanges w (change_Uri req) (change_Version req) (ContentChanges req) s.

(** ** Definition requests *)

(** The closure [walk] of [OnDefinition]; the state is the pair of the
    captured [startPosition] and [endPosition]. *)
Fixpoint definitionWalk (n : Node) (st : Point * Point) : Point * Point :=
  match n with
  | mkNode _ _ _ _ _ _ _ _ children =>
      let st :=
        if String.eqb (strings.TrimSpace (Kind n)) nodeKindChipDefinition then
          match ChildByFieldName n "name" with
          | Some name => (StartPosition name, EndPosition name)
          | None => st
          end
        else st in
      (fix walkChildren (cs : list Node) (st : Point * Point) : Point * Point :=
         match cs with
         | [] => st
         | c :: cs' =>
             if IsNamed c then walkChildren cs' (definitionWalk c st)
             else walkChildren cs' st
         end) children st
  end.

Definition zeroPoint : Point := {| Row := 0; Column := 0 |}.

(** [targetUri] of [OnDefinition]: the file next to the document unless
    [os.Stat] reports that it does not exist. *)
Definition targetUriFor (w : World) (uri fileName : string) : string :=
  let path := filepath.Join [baseDir uri; fileName] in
  match Stat w path with
  | Some err =>
      if errors_Is_NotExist err
      then filepath.Join [builtInChipsDir uri; fileName]
      else path
  | None => path
  end.

Definition targetRangeOf (st : Point * Point) : Range :=
  {| Start := {| Line := Row (fst st); Character := Column (fst st) |};
     End_ := {| Line := Row (snd st); Character := Column (snd st) |} |}.

(** The handler does not assign the shared maps, the server is not part
    of its result.  [tree] is the tree of the document of the request, and
    it is [tree] that the closure walks; [targetTree] is parsed and
    closed. *)
Definition OnDefinition (w : World) (req : DefinitionParams) (s : Server)
    : outcome (option (list LocationLink)) :=
  let uri := def_Uri req in
  source ← readFile w uri;
  offset ← getByteOffset source (int_of_uint (Line (def_Position req)))
                                (int_of_uint (Character (def_Position req)));
  let tree := Parse w source in
  node ← orPanic (DescendantParent tree (uint_of_int offset) (uint_of_int offset));
  if String.eqb (strings.TrimSuffix (Kind node) nl) nodeKindPart then
    match ChildByFieldName node "chip_name" with
    | Some name =>
        primitiveChipName ← slice source (StartByte name) (EndByte name);
        let fileName := primitiveChipName +:+ ext in
        let targetUri := targetUriFor w uri fileName in
        targetSource ← readFile w targetUri;
        let targetTree := Parse w targetSource in
        let targetRange := targetRangeOf (definitionWalk tree (zeroPoint, zeroPoint)) in
        Done (Some [ {| TargetUri := "file://" +:+ targetUri;
                        TargetRange := targetRange;
                        TargetSelectionRange := targetRange |} ])
    | None => Done None
    end
  else Done None.

(** The events the transport delivers, and the server after one of them.
    The world is the one at the time of the event. *)
Inductive Event : Type :=
| DidOpen (req : DidOpenTextDocumentParams)
| DidChange (req : DidChangeTextDocumentParams)
| Definition_ (req : DefinitionParams).

Definition handle (s : Server) (we : World * Event) : Server :=
  match we with
  | (w, DidOpen req) => fst (OnDidOpenTextDocument w req s)
  | (w, DidChange req) => fst (OnDidChangeTextDocument w req s)
  | (w, Definition_ req) => s
  end.

(** ** Notions the properties are stated with *)

(** The nodes a walk over the named children visits, in pre-order. *)
Fixpoint preorder (n : Node) : list Node :=
  match n with
  | mkNode _ _ _ _ _ _ _ _ children =>
      n :: (fix preorderChildren (cs : list Node) : list Node :=
              match cs with
              | [] => []
              | c :: cs' =>
                  if IsNamed c then preorder c ++ preorderChildren cs'
                  else preorderChildren cs'
              end) children
  end.

(** Running a step over a list of nodes, left to right, until one fails. *)
Fixpoint foldNodes {S : Type} (step : Node -> S -> outcome S) (l : list Node) (st : S)
    : outcome S :=
  match l with
  | [] => Done st
  | n :: l' => st ← step n st; foldNodes step l' st
  end.

(** The name field of a definition node, if the node is one and has it. *)
Definition definitionName (n : Node) : option Node :=
  if String.eqb (strings.TrimSpace (Kind n)) nodeKindChipDefinition
  then ChildByFieldName n "name"
  else None.

(** The name field of the last definition node of a list of nodes. *)
Fixpoint lastDefinitionName (l : list Node) : option Node :=
  match l with
  | [] => None
  | n :: l' =>
      match lastDefinitionName l' with
      | Some name => Some name
      | None => definitionName n
      end
  end.

(** The span of a node as a protocol range. *)
Definition spanOf (n : Node) : Range :=
  {| Start := {| Line := Row (StartPosition n); Character := Column (StartPosition n) |};
     End_ := {| Line := Row (EndPosition n); Character := Column (EndPosition n) |} |}.

(** The diagnostic with message [msg] at the span of [n]. *)
Definition diagnosticAt (n : Node) (msg : string) : Diagnostic :=
  {| DiagRange := spanOf n; Severity := DiagnosticSeverityError; Message := msg |}.

(** The bytes before line [n]: the lengths of the lines before it, each
    with its newline. *)
Fixpoint linesOffset (lines : list string) (n : nat) : Z :=
  match n, lines with
  | S n', l :: lines' => len l + 1 + linesOffset lines' n'
  | _, _ => 0
  end.

(** Every ['+'] replaced by a space. *)
Fixpoint plusToSpace (s : string) : string :=
  match s with
  | EmptyString => EmptyString
  | String c r =>
      String (if Ascii.eqb c url.plus then url.space else c) (plusToSpace r)
  end.

(** Percent-decoding that leaves ['+'] alone (Go's [url.PathUnescape]). *)
Fixpoint PathUnescape (s : string) : option string :=
  match s with
  | EmptyString => Some EmptyString
  | String c r =>
      if Ascii.eqb c url.percent then
        match r with
        | String h1 (String h2 r') =>
            if url.ishex h1 && url.ishex h2
            then String (ascii_of_N (url.unhex h1 * 16 + url.unhex h2)) <$> PathUnescape r'
            else None
        | _ => None
        end
      else String c <$> PathUnescape r
  end.

(** The byte [c] occurs in [s]. *)
Fixpoint occurs (c : ascii) (s : string) : bool :=
  match s with
  | EmptyString => false
  | String c' r => Ascii.eqb c' c || occurs c r
  end.

(** The chip names a walk adds to the catalog, call by call, up to the
    first call with an error. *)
Fixpoint walkNames (calls : list WalkCall) : gset string :=
  match calls with
  | [] => ∅
  | c :: rest =>
      match walk_err c with
      | Some _ => ∅
      | None =>
          (if negb (walk_isDir c) && String.eqb (filepath.Ext (walk_path c)) ext
           then {[ strings.TrimSuffix (filepath.Base (walk_path c)) ext ]}
           else ∅) ∪ walkNames rest
      end
  end.

(** The error of the first call of a walk that has one: the walk fails
    with it. *)
Fixpoint firstWalkError (calls : list WalkCall) : option error :=
  match calls with
  | [] => None
  | c :: rest =>
      match walk_err c with
      | Some err => Some err
      | None => firstWalkError rest
      end
  end.

(** The catalog after a trace of events. *)
Definition run (s : Server) (trace : list (World * Event)) : Server :=
  fold_left handle trace s.

(** ** A project on disk, for the examples

    [/proj/projects/01] holds [Xor.hdl] (the open document), [Not.hdl] and
    a test script; [/proj/tools/builtInChips] holds [And.hdl] and
    [Not.hdl].  The texts have the sections of a chip ([IN], [OUT],
    [PARTS:]); the positions in the trees are those of the tokens in the
    texts.  Of a tree the program reads the kinds [chip_definition] and
    [part], the fields [name] and [chip_name], which nodes are named and
    which are error nodes, the order of the children and the positions;
    the kinds of the other nodes play no role. *)
Module Example.

Definition pt (row col : Z) : Point := {| Row := row; Column := col |}.

(** An anonymous token. *)
Definition token (kind : string) (sb eb : Z) (sp ep : Point) : Node :=
  mkNode kind false false None sb eb sp ep [].

(** A named node. *)
Definition named (kind : string) (field : option string) (sb eb : Z) (sp ep : Point)
    (children : list Node) : Node :=
  mkNode kind true false field sb eb sp ep children.

(** An error node. *)
Definition errorNode (sb eb : Z) (sp ep : Point) (children : list Node) : Node :=
  mkNode "ERROR" true true None sb eb sp ep children.

Definition docUri : string := "file:///proj/projects/01/Xor.hdl".

(** The head of the document, lines 0 to 3: bytes 0..9, 11..22, 24..35
    and 37..46.  Line 4 begins at byte 48. *)
Definition docHead : string :=
  "CHIP Xor {" +:+ nl +:+
  "    IN a, b;" +:+ nl +:+
  "    OUT out;" +:+ nl +:+
  "    PARTS:" +:+ nl.

(** Line 4 is the part, bytes 52..71 after four spaces; line 5 is the
    closing brace, byte 73. *)
Definition docSource : string :=
  docHead +:+ "    Not(in=a, out=nota);" +:+ nl +:+ "}".

Definition docName : Node := named "identifier" (Some "name") 5 8 (pt 0 5) (pt 0 8) [].

Definition docIn : Node :=
  named "in_section" None 15 23 (pt 1 4) (pt 1 12)
    [ token "IN" 15 17 (pt 1 4) (pt 1 6);
      named "identifier" None 18 19 (pt 1 7) (pt 1 8) [];
      token "," 19 20 (pt 1 8) (pt 1 9);
      named "identifier" None 21 22 (pt 1 10) (pt 1 11) [];
      token ";" 22 23 (pt 1 11) (pt 1 12) ].

Definition docOut : Node :=
  named "out_section" None 28 36 (pt 2 4) (pt 2 12)
    [ token "OUT" 28 31 (pt 2 4) (pt 2 7);
      named "identifier" None 32 35 (pt 2 8) (pt 2 11) [];
      token ";" 35 36 (pt 2 11) (pt 2 12) ].

Definition docChipName : Node :=
  named "identifier" (Some "chip_name") 52 55 (pt 4 4) (pt 4 7) [].

(** The children of the part up to the end of its connections. *)
Definition partHead : list Node :=
  [ docChipName;
    token "(" 55 56 (pt 4 7) (pt 4 8);
    named "connection" None 56 60 (pt 4 8) (pt 4 12) [];
    token "," 60 61 (pt 4 12) (pt 4 13);
    named "connection" None 62 70 (pt 4 14) (pt 4 22) [];
    token ")" 70 71 (pt 4 22) (pt 4 23) ].

Definition docPart : Node :=
  named "part" None 52 72 (pt 4 4) (pt 4 24)
    (partHead ++ [ token ";" 71 72 (pt 4 23) (pt 4 24) ]).

(** The chip [Xor] whose [PARTS:] section holds the one part [part], the
    closing brace being the byte [close] of line 5. *)
Definition chipWith (part : Node) (close : Z) : Node :=
  named "chip_definition" None 0 (close + 1) (pt 0 0) (pt 5 1)
    [ token "CHIP" 0 4 (pt 0 0) (pt 0 4);
      docName;
      token "{" 9 10 (pt 0 9) (pt 0 10);
      docIn;
      docOut;
      named "parts_section" None 41 (EndByte part) (pt 3 4) (EndPosition part)
        [ token "PARTS:" 41 47 (pt 3 4) (pt 3 10); part ];
      token "}" close (close + 1) (pt 5 0) (pt 5 1) ].

Definition docChip : Node := chipWith docPart 73.

Definition docTree : Node :=
  named "source_file" None 0 74 (pt 0 0) (pt 5 1) [ docChip ].

(** [Not.hdl] next to the document: a comment line, then the chip.  The
    name [Not] is bytes 17..19, on line 1. *)
Definition notSource : string :=
  "// Not gate" +:+ nl +:+
  "CHIP Not {" +:+ nl +:+
  "    IN in;" +:+ nl +:+
  "    OUT out;" +:+ nl +:+
  "    PARTS:" +:+ nl +:+
  "    Nand(a=in, b=in, out=out);" +:+ nl +:+
  "}".

Definition notName : Node := named "identifier" (Some "name") 17 20 (pt 1 5) (pt 1 8) [].

Definition notTree : Node :=
  named "source_file" None 0 90 (pt 0 0) (pt 6 1)
    [ named "comment" None 0 11 (pt 0 0) (pt 0 11) [];
      named "chip_definition" None 12 90 (pt 1 0) (pt 6 1)
        [ token "CHIP" 12 16 (pt 1 0) (pt 1 4);
          notName;
          token "{" 21 22 (pt 1 9) (pt 1 10);
          named "in_section" None 27 33 (pt 2 4) (pt 2 10)
            [ token "IN" 27 29 (pt 2 4) (pt 2 6);
              named "identifier" None 30 32 (pt 2 7) (pt 2 9) [];
              token ";" 32 33 (pt 2 9) (pt 2 10) ];
          named "out_section" None 38 46 (pt 3 4) (pt 3 12)
            [ token "OUT" 38 41 (pt 3 4) (pt 3 7);
              named "identifier" None 42 45 (pt 3 8) (pt 3 11) [];
              token ";" 45 46 (pt 3 11) (pt 3 12) ];
          named "parts_section" None 51 88 (pt 4 4) (pt 5 30)
            [ token "PARTS:" 51 57 (pt 4 4) (pt 4 10);
              named "part" None 62 88 (pt 5 4) (pt 5 30)
                [ named "identifier" (Some "chip_name") 62 66 (pt 5 4) (pt 5 8) [];
                  token "(" 66 67 (pt 5 8) (pt 5 9);
                  named "connection" None 67 71 (pt 5 9) (pt 5 13) [];
                  token "," 71 72 (pt 5 13) (pt 5 14);
                  named "connection" None 73 77 (pt 5 15) (pt 5 19) [];
                  token "," 77 78 (pt 5 19) (pt 5 20);
                  named "connection" None 79 86 (pt 5 21) (pt 5 28) [];
                  token ")" 86 87 (pt 5 28) (pt 5 29);
                  token ";" 87 88 (pt 5 29) (pt 5 30) ] ];
          token "}" 89 90 (pt 6 0) (pt 6 1) ] ].

(** The document with a stray closing parenthesis after the connections of
    the part, [Not(in=a, out=nota));]: the parenthesis that does not fit is
    skipped and wrapped, alone, in an error node of the part. *)
Definition straySource : string :=
  docHead +:+ "    Not(in=a, out=nota));" +:+ nl +:+ "}".

Definition strayError : Node :=
  errorNode 71 72 (pt 4 23) (pt 4 24) [ token ")" 71 72 (pt 4 23) (pt 4 24) ].

Definition strayPart : Node :=
  named "part" None 52 73 (pt 4 4) (pt 4 25)
    (partHead ++ [ strayError; token ";" 72 73 (pt 4 24) (pt 4 25) ]).

Definition strayTree : Node :=
  named "source_file" None 0 75 (pt 0 0) (pt 5 1) [ chipWith strayPart 74 ].

(** The tree of the empty text: the root alone. *)
Definition bareTree (source : string) : Node :=
  named "source_file" None 0 (len source) (pt 0 0) (pt 0 (len source)) [].

(** The parser of the examples.  The three texts above and the empty text
    are the only ones parsed in them; the root alone stands for any
    other. *)
Definition parse (source : string) : Node :=
  if String.eqb source docSource then docTree
  else if String.eqb source notSource then notTree
  else if String.eqb source straySource then strayTree
  else bareTree source.

Definition files : list (string * string) :=
  [ ("/proj/projects/01/Xor.hdl", docSource);
    ("/proj/projects/01/Not.hdl", notSource);
    ("/proj/projects/01/Xor.tst", "load Xor.hdl;");
    ("/proj/tools/builtInChips/And.hdl", "CHIP And { IN a, b; OUT out; BUILTIN And; }");
    ("/proj/tools/builtInChips/Not.hdl", "CHIP Not { IN in; OUT out; BUILTIN Not; }");
    ("/tmp/empty.hdl", EmptyString) ].

Fixpoint lookupFile (l : list (string * string)) (path : string) : option string :=
  match l with
  | [] => None
  | (p, content) :: l' => if String.eqb p path then Some content else lookupFile l' path
  end.

(** The operating system resolves a path whatever its spelling. *)
Definition stat (path : string) : option error :=
  match lookupFile files (filepath.Clean path) with
  | Some _ => None
  | None => Some ErrNotExist
  end.

Definition read (path : string) : string + error :=
  match lookupFile files (filepath.Clean path) with
  | Some content => inl content
  | None => inr ErrNotExist
  end.

Definition entry (path : string) (isDir : bool) : WalkCall :=
  {| walk_path := path; walk_isDir := isDir; walk_err := None |}.

Definition walkDir (dir : string) : list WalkCall :=
  if String.eqb dir "/proj/projects/01" then
    [ entry "/proj/projects/01" true;
      entry "/proj/projects/01/Not.hdl" false;
      entry "/proj/projects/01/Xor.hdl" false;
      entry "/proj/projects/01/Xor.tst" false ]
  else if String.eqb dir "/proj/tools/builtInChips" then
    [ entry "/proj/tools/builtInChips" true;
      entry "/proj/tools/builtInChips/And.hdl" false;
      entry "/proj/tools/builtInChips/Not.hdl" false ]
  else if String.eqb dir "/tmp" then
    [ entry "/tmp" true; entry "/tmp/empty.hdl" false ]
  else [ {| walk_path := dir; walk_isDir := false; walk_err := Some ErrNotExist |} ].

Definition world : World :=
  {| Parse := parse;
     Stat := stat;
     ReadFile := read;
     WalkDir := walkDir;
     Marshal := fun _ => None;
     SendNotification := fun _ => None |}.

Definition server0 : Server :=
  {| implementedChips := ∅; openFiles := ∅; sent := [] |}.

(** Go to definition on [Not] in the document: line 4, character 5, which
    is byte 53. *)
Definition request : DefinitionParams :=
  {| def_Uri := docUri; def_Position := {| Line := 4; Character := 5 |} |}.

(** An empty document under [/tmp], and go to definition at its start.
    [/tools/builtInChips] does not exist. *)
Definition emptyUri : string := "file:///tmp/empty.hdl".

Definition emptyRequest : DefinitionParams :=
  {| def_Uri := emptyUri; def_Position := {| Line := 0; Character := 0 |} |}.

Definition emptyOpen : DidOpenTextDocumentParams :=
  {| open_Uri := emptyUri; open_Text := EmptyString; open_Version := 1 |}.

End Example.

(** ** The first version of the handlers

    [main.go] also holds the earlier version of the server.  Its walk has
    the two tests on [chip_name] only, and its definition handler answers
    with the built-in file without looking at the disk.  The names of its
    variables differ ([compositeChipName] for [implementingChipName],
    [primitiveChips] for [implementedChips]); the blocks that are the same
    code are shared. *)
Module Previous.

(** The [switch] of the closure [walk]: [case "part"] ends after the block
    on [chip_name]. *)
Definition visit (primitiveChips : gset string) (source : string)
    (n : Node) (st : walkState) : outcome walkState :=
  let kind := strings.TrimSpace (Kind n) in
  if String.eqb kind "chip_definition" then visitChipDefinition source n st
  else if String.eqb kind "part" then checkChipName primitiveChips source n st
  else Done st.

Fixpoint walk (primitiveChips : gset string) (source : string)
    (n : Node) (st : walkState) : outcome walkState :=
  match n with
  | mkNode _ _ _ _ _ _ _ _ children =>
      st ← visit primitiveChips source n st;
      (fix walkChildren (cs : list Node) (st : walkState) : outcome walkState :=
         match cs with
         | [] => Done st
         | c :: cs' =>
             if IsNamed c then
               st ← walk primitiveChips source c st;
               walkChildren cs' st
             else walkChildren cs' st
         end) children st
  end.

(** The zero value of [defines.Range], for the fields the literal leaves
    out. *)
Definition zeroRange : Range :=
  {| Start := {| Line := 0; Character := 0 |}; End_ := {| Line := 0; Character := 0 |} |}.

Definition OnDefinition (w : World) (req : DefinitionParams) (s : Server)
    : outcome (option (list LocationLink)) :=
  source ← readFile w (def_Uri req);
  offset ← getByteOffset source (int_of_uint (Line (def_Position req)))
                                (int_of_uint (Character (def_Position req)));
  let tree := Parse w source in
  node ← orPanic (DescendantParent tree (uint_of_int offset) (uint_of_int offset));
  if String.eqb (strings.TrimSuffix (Kind node) nl) "part" then
    match ChildByFieldName node "chip_name" with
    | Some name =>
        primitiveChipName ← slice source (StartByte name) (EndByte name);
        let targetPath :=
          filepath.Join [builtInChipsDir (def_Uri req); primitiveChipName +:+ ".hdl"] in
        Done (Some [ {| TargetUri := "file://" +:+ targetPath;
                        TargetRange := zeroRange;
                        TargetSelectionRange := zeroRange |} ])
    | None => Done None
    end
  else Done None.

End Previous.

(** ** Trees the walk gets through *)

(** What the walk reads of a child of a node it visits: a byte range
    within the source, and, on an error node, a second child. *)
Definition childReadable (source : string) (c : Node) : bool :=
  (0 <=? StartByte c) && (StartByte c <=? EndByte c) && (EndByte c <=? len source)
  && (negb (IsError c) || match Child c 1 with Some _ => true | None => false end).

(** Every child of every node the walk visits is readable. *)
Definition readable (source : string) (root : Node) : bool :=
  forallb (fun n => forallb (childReadable source) (Children n)) (preorder root).

(** The node is a part, as the [switch] of the walk sees it. *)
Definition isPart (n : Node) : bool :=
  String.eqb (strings.TrimSpace (Kind n)) nodeKindPart.

(** The call is one that adds a name to the catalog. *)
Definition isChipFile (c : WalkCall) : bool :=
  negb (walk_isDir c) && String.eqb (filepath.Ext (walk_path c)) ext.

(** The name the call adds. *)
Definition chipNameOf (c : WalkCall) : string :=
  strings.TrimSuffix (filepath.Base (walk_path c)) ext.

(** The calls of a walk before the first one with an error. *)
Fixpoint callsBeforeError (calls : list WalkCall) : list WalkCall :=
  match calls with
  | [] => []
  | c :: rest =>
      match walk_err c with
      | Some _ => []
      | None => c :: callsBeforeError rest
      end
  end.

(** ** Paths made of plain elements *)

(** A path element that [Clean] keeps as it is: not empty, not ["."], not
    [".."], without separator. *)
Definition plainElem (e : string) : bool :=
  negb (String.eqb e EmptyString) && negb (String.eqb e ".") && negb (String.eqb e "..")
  && negb (occurs filepath.Separator e).

(** [k] separators in a row. *)
Fixpoint slashes (k : nat) : string :=
  match k with
  | O => EmptyString
  | S k' => String filepath.Separator (slashes k')
  end.

(** * Properties *)

(** ** The library model on a few inputs *)

Example Split_lines :
  strings.Split ("ab" +:+ nl +:+ nl +:+ "cde" +:+ nl) strings.newline
    = ["ab"; EmptyString; "cde"; EmptyString].
Proof. reflexivity. Qed.

Example TrimSpace_both_ends : strings.TrimSpace ("  a b " +:+ nl) = "a b".
Proof. reflexivity. Qed.

Example Clean_cases :
  map filepath.Clean ["a//b/./c/.."; "/../a"; "../../a/.."; EmptyString; "/"; "a/.."; "///x/y"]
    = ["a/b"; "/a"; "../.."; "."; "/"; "."; "/x/y"].
Proof. reflexivity. Qed.

Example Base_Ext_cases :
  (filepath.Base "/a/b/Not.hdl", filepath.Ext "/a/b/Not.hdl",
   filepath.Ext "/a.b/c", filepath.Base "/a/b/")
    = ("Not.hdl", ".hdl", EmptyString, "b").
Proof. reflexivity. Qed.

Example toFilePath_escapes :
  toFilePath "file:///proj/a+b/c%2Bd/Xor.hdl" = "///proj/a b/c+d/Xor.hdl".
Proof. reflexivity. Qed.

Example toFilePath_bad_escape : toFilePath "file:///proj/100%/Xor.hdl" = EmptyString.
Proof. reflexivity. Qed.

Example baseDir_of_document : baseDir Example.docUri = "/proj/projects/01".
Proof. reflexivity. Qed.

Example builtInChipsDir_of_document : builtInChipsDir Example.docUri = "/proj/tools/builtInChips".
Proof. reflexivity. Qed.

Example builtInChipsDir_near_root : builtInChipsDir Example.emptyUri = "/tools/builtInChips".
Proof. reflexivity. Qed.

(** Opening the document: both directories are scanned, [Not] is known,
    nothing is reported. *)
Example open_document :
  let r := OnDidOpenTextDocument Example.world
             (mkDidOpen Example.docUri Example.docSource 1) Example.server0 in
  snd r = Done tt /\
  implementedChips (fst r) = {[ "And"; "Not"; "Xor" ]} /\
  sent (fst r) = [ {| Uri := Example.docUri; Version := 1; Diagnostics := [] |} ].
Proof. vm_compute. repeat split; reflexivity. Qed.

(** ** Position translator *)

Lemma index_nth {A : Type} (l : list A) (i : Z) (x : A) :
  0 <= i -> nth_error l (Z.to_nat i) = Some x -> index l i = Done x.
Proof.
  intros Hi Hx. unfold index.
  destruct (Z.ltb_spec i 0) as [Hneg | _]; [lia |].
  now rewrite Hx.
Qed.

Lemma index_out_of_range {A : Type} (l : list A) (i : Z) :
  i < 0 \/ llen l <= i -> index l i = Panic.
Proof.
  intros H. unfold index, llen in *.
  destruct (Z.ltb_spec i 0) as [Hneg | Hpos]; [reflexivity |].
  destruct (nth_error l (Z.to_nat i)) eqn:E; [| reflexivity].
  assert (Hlt : (Z.to_nat i < List.length l)%nat)
    by (apply nth_error_Some; congruence).
  lia.
Qed.

Lemma sumLines_shift (l : string) (lines : list string) (n : nat) (i offset : Z) :
  0 <= i -> sumLines (l :: lines) (i + 1) n offset = sumLines lines i n offset.
Proof.
  revert i offset. induction n as [| n IH]; intros i offset Hi; [reflexivity |].
  cbn [sumLines]. unfold index.
  destruct (Z.ltb_spec (i + 1) 0) as [Hneg | _]; [lia |].
  destruct (Z.ltb_spec i 0) as [Hneg | _]; [lia |].
  replace (Z.to_nat (i + 1)) with (S (Z.to_nat i)) by lia. cbn [nth_error].
  destruct (nth_error lines (Z.to_nat i)) as [x |]; [| reflexivity].
  cbn. apply IH. lia.
Qed.

(** The loop adds up the lengths of the lines before [line]. *)
Lemma sumLines_linesOffset (lines : list string) (n : nat) (offset : Z) :
  (n <= List.length lines)%nat ->
  sumLines lines 0 n offset = Done (offset + linesOffset lines n).
Proof.
  revert n offset. induction lines as [| l lines IH]; intros n offset Hn.
  - destruct n; [| cbn in Hn; lia]. cbn. f_equal. lia.
  - destruct n as [| n]; [cbn; f_equal; lia |].
    cbn [sumLines linesOffset].
    rewrite (index_nth (l :: lines) 0 l) by (reflexivity || lia).
    cbn [mbind outcome_bind].
    rewrite sumLines_shift by lia.
    rewrite IH by (cbn in Hn; lia). f_equal. lia.
Qed.

Lemma length_substring_prefix (s : string) (n : nat) :
  (n <= String.length s)%nat -> String.length (substring 0 n s) = n.
Proof.
  revert n. induction s as [| c s IH]; intros n Hn.
  - destruct n; [reflexivity | cbn in Hn; lia].
  - destruct n as [| n]; [reflexivity |]. cbn. f_equal. apply IH. cbn in Hn. lia.
Qed.

Lemma sliceTo_ok (s : string) (hi : Z) :
  0 <= hi <= len s -> exists pre, sliceTo s hi = Done pre /\ len pre = hi.
Proof.
  intros H. unfold sliceTo.
  destruct (Z.ltb_spec hi 0); [lia |]. destruct (Z.ltb_spec (len s) hi); [lia |].
  cbn. eexists. split; [reflexivity |].
  unfold len in *. rewrite length_substring_prefix by lia. lia.
Qed.

Lemma sliceTo_out_of_range (s : string) (hi : Z) :
  hi < 0 \/ len s < hi -> sliceTo s hi = Panic.
Proof.
  intros H. unfold sliceTo.
  destruct (Z.ltb_spec hi 0); [reflexivity |].
  destruct (Z.ltb_spec (len s) hi); [reflexivity | lia].
Qed.

(** Past the guard of [getByteOffset]. *)
Lemma getByteOffset_beyond (text : string) (line char : Z) :
  llen (strings.Split text strings.newline) < line ->
  getByteOffset text line char = Done (len text).
Proof.
  intros Hline. unfold getByteOffset.
  destruct (Z.gtb_spec line (llen (strings.Split text strings.newline))); [reflexivity | lia].
Qed.

(** On a line of the text, what is left is the slice expression. *)
Lemma getByteOffset_on_line (text : string) (line char : Z) (l : string) :
  0 <= line ->
  nth_error (strings.Split text strings.newline) (Z.to_nat line) = Some l ->
  getByteOffset text line char =
    (pre ← sliceTo l char;
     Done (linesOffset (strings.Split text strings.newline) (Z.to_nat line) + len pre)).
Proof.
  intros Hline Hl. set (lines := strings.Split text strings.newline) in *.
  assert (Hlt : (Z.to_nat line < List.length lines)%nat)
    by (apply nth_error_Some; congruence).
  unfold getByteOffset. fold lines.
  destruct (Z.gtb_spec line (llen lines)) as [Hgt | _]; [unfold llen in Hgt; lia |].
  rewrite sumLines_linesOffset by lia. cbn [mbind outcome_bind].
  rewrite (index_nth lines line l Hline Hl). reflexivity.
Qed.

(** The cases of [getByteOffset] on a line index other than the number
    of lines: past it, the byte length of the text; on a line of the text,
    with a character index from 0 to the byte length of that line, the
    bytes of the lines before it, each with its newline, plus the character
    index; with a character index outside the line, the panic of the slice
    expression. *)
Lemma getByteOffset_cases (text : string) (line char : Z) :
  let lines := strings.Split text strings.newline in
  (llen lines < line -> getByteOffset text line char = Done (len text)) /\
  (forall l, 0 <= line -> nth_error lines (Z.to_nat line) = Some l ->
     (0 <= char <= len l ->
      getByteOffset text line char = Done (linesOffset lines (Z.to_nat line) + char)) /\
     (char < 0 \/ len l < char -> getByteOffset text line char = Panic)).
Proof.
  intros lines. split; [apply getByteOffset_beyond |].
  intros l Hline Hl. rewrite (getByteOffset_on_line text line char l Hline Hl).
  fold lines. split; intros Hchar.
  - destruct (sliceTo_ok l char Hchar) as (pre & -> & Hlen). cbn. now rewrite Hlen.
  - now rewrite sliceTo_out_of_range.
Qed.

(** C2 at the one-line text ["ab"]: character 3 of line 0 is past the end
    of the line, and line 1 is past the last line; neither is clamped, the
    expressions [lines[line][:char]] and [lines[line]] panic.  Only from
    line 2 on does the guard [line > len(lines)] answer with the byte
    length of the text. *)
Theorem getByteOffset_out_of_range_panics :
  getByteOffset "ab" 0 3 = Panic /\
  getByteOffset "ab" 1 0 = Panic /\
  getByteOffset "ab" 2 0 = Done 2.
Proof. repeat split; vm_compute; reflexivity. Qed.

(** The line index equal to the number of lines passes the guard
    [line > len(lines)] and then indexes past the last line. *)
Lemma getByteOffset_line_equal_count (text : string) (char : Z) :
  getByteOffset text (llen (strings.Split text strings.newline)) char = Panic.
Proof.
  unfold getByteOffset.
  set (lines := strings.Split text strings.newline).
  destruct (Z.gtb_spec (llen lines) (llen lines)) as [Hgt | _]; [lia |].
  replace (Z.to_nat (llen lines)) with (List.length lines) by (unfold llen; lia).
  rewrite sumLines_linesOffset by lia. cbn [mbind outcome_bind].
  rewrite index_out_of_range by (right; lia). reflexivity.
Qed.

Lemma Split_not_nil (s : string) (sep : ascii) : strings.Split s sep <> [].
Proof.
  destruct s as [| c r]; cbn; [discriminate |].
  destruct (Ascii.eqb c sep); [discriminate |].
  destruct (strings.Split r sep); discriminate.
Qed.

(** The lines of a text, each with a newline, are one byte more than the
    text. *)
Lemma linesOffset_Split (text : string) :
  let lines := strings.Split text strings.newline in
  linesOffset lines (List.length lines) = len text + 1.
Proof.
  induction text as [| c r IH]; [reflexivity |].
  cbn zeta in *. cbn [strings.Split].
  destruct (Ascii.eqb c strings.newline).
  - cbn [List.length linesOffset]. rewrite IH. unfold len. cbn [String.length]. lia.
  - pose proof (Split_not_nil r strings.newline) as Hne.
    destruct (strings.Split r strings.newline) as [| h t]; [congruence |].
    cbn [List.length linesOffset] in *. unfold len in *. cbn [String.length]. lia.
Qed.

Lemma linesOffset_nth (lines : list string) (n : nat) (l : string) :
  nth_error lines n = Some l ->
  0 <= linesOffset lines n /\
  linesOffset lines n + len l + 1 <= linesOffset lines (List.length lines).
Proof.
  revert n. induction lines as [| l0 lines IH]; intros n Hn.
  - destruct n; discriminate.
  - destruct n as [| n]; cbn [nth_error] in Hn.
    + injection Hn as ->. cbn [linesOffset List.length].
      assert (0 <= linesOffset lines (List.length lines)).
      { clear. induction lines as [| x xs IHx]; cbn [linesOffset List.length]; [lia |].
        unfold len. lia. }
      unfold len. lia.
    + destruct (IH n Hn) as [H0 H1]. cbn [linesOffset List.length].
      unfold len in *. lia.
Qed.

(** X1: An offset that is returned lies within the text, so the additions of
    the loop stay far from the limits of a 64-bit [int]. *)
Lemma getByteOffset_within_text (text : string) (line char offset : Z) :
  getByteOffset text line char = Done offset -> 0 <= offset <= len text.
Proof.
  intros H.
  set (lines := strings.Split text strings.newline).
  destruct (Z_lt_le_dec (llen lines) line) as [Hgt | Hle].
  - rewrite (getByteOffset_beyond text line char Hgt) in H.
    injection H as <-. unfold len. lia.
  - destruct (Z_lt_le_dec line 0) as [Hneg | Hpos].
    + exfalso. unfold getByteOffset in H. fold lines in H.
      destruct (Z.gtb_spec line (llen lines)); [lia |].
      replace (Z.to_nat line) with O in H by lia. cbn [sumLines mbind outcome_bind] in H.
      rewrite index_out_of_range in H by (left; lia). discriminate H.
    + destruct (nth_error lines (Z.to_nat line)) as [l |] eqn:El.
      * rewrite (getByteOffset_on_line text line char l Hpos El) in H. fold lines in H.
        destruct (Z_lt_le_dec char 0) as [Hc | Hc];
          [rewrite sliceTo_out_of_range in H by (left; lia); discriminate H |].
        destruct (Z_lt_le_dec (len l) char) as [Hc' | Hc'];
          [rewrite sliceTo_out_of_range in H by (right; lia); discriminate H |].
        destruct (sliceTo_ok l char (conj Hc Hc')) as (pre & Hpre & Hlen).
        rewrite Hpre in H. cbn [mbind outcome_bind] in H. injection H as <-.
        pose proof (linesOffset_nth lines _ l El) as [H0 H1].
        pose proof (linesOffset_Split text) as Htot. cbn zeta in Htot. fold lines in Htot.
        lia.
      * exfalso. apply nth_error_None in El.
        assert (line = llen lines) as -> by (unfold llen in *; lia).
        unfold lines in H. rewrite getByteOffset_line_equal_count in H. discriminate H.
Qed.

(** ** URI to path *)

(** Induction on the length of a string, for the functions that consume
    more than one byte in a step. *)
Lemma string_length_ind (P : string -> Prop) :
  (forall s, (forall t, (String.length t < String.length s)%nat -> P t) -> P s) ->
  forall s, P s.
Proof.
  intros H s. remember (String.length s) as n eqn:Hn.
  revert s Hn. induction n as [n IH] using lt_wf_ind. intros s ->.
  apply H. intros t Ht. exact (IH _ Ht t eq_refl).
Qed.

(** Closes the side condition of [string_length_ind] for a tail of the
    string. *)
Ltac shorter := cbn [String.length]; lia.

Lemma plus_not_hex (c : ascii) :
  url.ishex c = true -> Ascii.eqb c url.plus = false.
Proof.
  intros H. destruct (Ascii.eqb_spec c url.plus) as [-> | _]; [| reflexivity].
  vm_compute in H. discriminate H.
Qed.

Lemma ishex_plusToSpace (c : ascii) :
  url.ishex (if Ascii.eqb c url.plus then url.space else c) = url.ishex c.
Proof.
  destruct (Ascii.eqb_spec c url.plus) as [-> | _]; reflexivity.
Qed.

(** Query unescaping is percent-decoding of the string in which every
    ['+'] is a space. *)
Lemma QueryUnescape_plusToSpace (s : string) :
  url.QueryUnescape s = PathUnescape (plusToSpace s).
Proof.
  induction s as [s IH] using string_length_ind.
  destruct s as [| c r]; [reflexivity |].
  cbn [url.QueryUnescape plusToSpace PathUnescape].
  destruct (Ascii.eqb_spec c url.percent) as [-> | Hpc].
  - change (Ascii.eqb url.percent url.plus) with false. cbn iota.
    rewrite Ascii.eqb_refl.
    destruct r as [| h1 [| h2 r']]; [reflexivity | reflexivity |].
    cbn [plusToSpace]. rewrite !ishex_plusToSpace.
    destruct (url.ishex h1) eqn:E1; [| reflexivity].
    destruct (url.ishex h2) eqn:E2; [| reflexivity].
    rewrite (plus_not_hex h1 E1), (plus_not_hex h2 E2). cbn [andb].
    rewrite IH by shorter. reflexivity.
  - destruct (Ascii.eqb_spec c url.plus) as [-> | Hpl].
    + change (Ascii.eqb url.space url.percent) with false. cbn iota.
      rewrite IH by shorter. reflexivity.
    + destruct (Ascii.eqb_spec c url.percent) as [-> | _]; [congruence |].
      rewrite IH by shorter. reflexivity.
Qed.

Lemma occurs_app (c : ascii) (a b : string) :
  occurs c (a +:+ b) = occurs c a || occurs c b.
Proof.
  induction a as [| x a IH]; [reflexivity |].
  simpl. rewrite IH. now rewrite orb_assoc.
Qed.

Lemma append_cons (c : ascii) (r s : string) : String c r +:+ s = String c (r +:+ s).
Proof. reflexivity. Qed.

Lemma append_nil_r (s : string) : s +:+ EmptyString = s.
Proof.
  induction s as [| c r IH]; [reflexivity |]. now rewrite append_cons, IH.
Qed.

Lemma append_assoc (a b c : string) : (a +:+ b) +:+ c = a +:+ (b +:+ c).
Proof.
  induction a as [| x a IH]; [reflexivity |]. now rewrite !append_cons, IH.
Qed.

Lemma rev_app (a b : string) : strings.rev (a +:+ b) = strings.rev b +:+ strings.rev a.
Proof.
  induction a as [| x a IH].
  - cbn [strings.rev]. now rewrite append_nil_r.
  - rewrite append_cons. cbn [strings.rev]. now rewrite IH, append_assoc.
Qed.

Lemma rev_involutive (s : string) : strings.rev (strings.rev s) = s.
Proof.
  induction s as [| c r IH]; [reflexivity |].
  cbn [strings.rev]. rewrite rev_app, IH. reflexivity.
Qed.

Lemma occurs_rev (c : ascii) (s : string) : occurs c (strings.rev s) = occurs c s.
Proof.
  induction s as [| x r IH]; [reflexivity |].
  simpl. rewrite occurs_app, IH. simpl. rewrite orb_false_r. apply orb_comm.
Qed.

Lemma trimLeftSpace_suffix (s : string) : exists p, s = p +:+ strings.trimLeftSpace s.
Proof.
  induction s as [s IH] using string_length_ind.
  destruct s as [| c1 r1]; [now exists EmptyString |].
  cbn [strings.trimLeftSpace].
  destruct (strings.asciiSpace c1).
  { destruct (IH r1) as [p Hp]; [shorter |].
    exists (String c1 p). rewrite ?append_cons. now rewrite <- Hp. }
  destruct r1 as [| c2 r2]; [now exists EmptyString |].
  destruct (strings.isSpace2 c1 c2).
  { destruct (IH r2) as [p Hp]; [shorter |].
    exists (String c1 (String c2 p)). rewrite ?append_cons. now rewrite <- Hp. }
  destruct r2 as [| c3 r3]; [now exists EmptyString |].
  destruct (strings.isSpace3 c1 c2 c3); [| now exists EmptyString].
  destruct (IH r3) as [p Hp]; [shorter |].
  exists (String c1 (String c2 (String c3 p))). rewrite ?append_cons. now rewrite <- Hp.
Qed.

Lemma trimLeftSpaceRev_suffix (s : string) : exists p, s = p +:+ strings.trimLeftSpaceRev s.
Proof.
  induction s as [s IH] using string_length_ind.
  destruct s as [| c1 r1]; [now exists EmptyString |].
  cbn [strings.trimLeftSpaceRev].
  destruct (strings.asciiSpace c1).
  { destruct (IH r1) as [p Hp]; [shorter |].
    exists (String c1 p). rewrite ?append_cons. now rewrite <- Hp. }
  destruct r1 as [| c2 r2]; [now exists EmptyString |].
  destruct (strings.isSpace2 c2 c1).
  { destruct (IH r2) as [p Hp]; [shorter |].
    exists (String c1 (String c2 p)). rewrite ?append_cons. now rewrite <- Hp. }
  destruct r2 as [| c3 r3]; [now exists EmptyString |].
  destruct (strings.isSpace3 c3 c2 c1); [| now exists EmptyString].
  destruct (IH r3) as [p Hp]; [shorter |].
  exists (String c1 (String c2 (String c3 p))). rewrite ?append_cons. now rewrite <- Hp.
Qed.

(** Trimming only removes bytes: a byte of the trimmed string is a byte of
    the string. *)
Lemma occurs_TrimSpace (c : ascii) (s : string) :
  occurs c (strings.TrimSpace s) = true -> occurs c s = true.
Proof.
  unfold strings.TrimSpace, strings.trimRightSpace. intros H.
  rewrite occurs_rev in H.
  destruct (trimLeftSpace_suffix s) as [p Hp].
  destruct (trimLeftSpaceRev_suffix (strings.rev (strings.trimLeftSpace s))) as [q Hq].
  rewrite Hp, occurs_app.
  rewrite <- (occurs_rev c (strings.trimLeftSpace s)), Hq, occurs_app, H.
  now rewrite !orb_true_r.
Qed.

Lemma occurs_drop (c : ascii) (n : nat) (s : string) :
  occurs c (strings.drop n s) = true -> occurs c s = true.
Proof.
  revert s. induction n as [| n IH]; intros s H; [exact H |].
  destruct s as [| x r]; [exact H |]. cbn in *. rewrite (IH r H). apply orb_true_r.
Qed.

Lemma occurs_TrimPrefix (c : ascii) (s pre : string) :
  occurs c (strings.TrimPrefix s pre) = true -> occurs c s = true.
Proof.
  unfold strings.TrimPrefix. destruct (strings.HasPrefix s pre); [| easy].
  apply occurs_drop.
Qed.

Lemma PathUnescape_no_percent (s : string) :
  occurs url.percent s = false -> PathUnescape s = Some s.
Proof.
  induction s as [| c r IH]; [reflexivity |].
  cbn. destruct (Ascii.eqb c url.percent); [discriminate |].
  cbn. intros H. now rewrite IH.
Qed.

Lemma occurs_plusToSpace (c : ascii) (s : string) :
  occurs c (plusToSpace s) = true -> c = url.space \/ occurs c s = true.
Proof.
  induction s as [| x r IH]; [discriminate |].
  cbn. intros H. apply orb_true_iff in H as [H | H].
  - destruct (Ascii.eqb_spec x url.plus) as [-> | _].
    + left. symmetry. now apply Ascii.eqb_eq.
    + right. now rewrite H.
  - destruct (IH H) as [-> | Hr]; [now left | right]. rewrite Hr. apply orb_true_r.
Qed.

Lemma plusToSpace_no_plus (s : string) : occurs url.plus (plusToSpace s) = false.
Proof.
  induction s as [| x r IH]; [reflexivity |].
  cbn. rewrite IH, orb_false_r.
  destruct (Ascii.eqb_spec x url.plus) as [-> | Hne]; [reflexivity |].
  now apply Ascii.eqb_neq.
Qed.

(** C10: the path the program works on is the percent-decoding of the
    trimmed URI in which every ['+'] has become a space; all file system
    accesses ([readFile], [baseDir], [builtInChipsDir]) go through it; and
    for a URI without percent escapes that path holds no ['+'] at all, so
    it is not the path of a file with a ['+'] in its name. *)
Theorem toFilePath_plus_is_space (w : World) (uri : string) :
  toFilePath uri =
    strings.TrimPrefix
      (default EmptyString (PathUnescape (plusToSpace (strings.TrimSpace uri)))) "file:" /\
  readFile w uri =
    match ReadFile w (toFilePath uri) with inl b => Done b | inr e => Fail e end /\
  baseDir uri = filepath.Dir (toFilePath uri) /\
  builtInChipsDir uri =
    filepath.Join
      [filepath.Clean (filepath.Join [filepath.Dir (toFilePath uri); ".."; ".."]);
       "tools"; "builtInChips"] /\
  (occurs url.percent uri = false -> occurs url.plus (toFilePath uri) = false).
Proof.
  split; [| split; [| split; [| split]]]; try reflexivity.
  - unfold toFilePath. now rewrite QueryUnescape_plusToSpace.
  - intros Hpc. unfold toFilePath. rewrite QueryUnescape_plusToSpace.
    destruct (occurs url.plus (strings.TrimPrefix _ _)) eqn:E; [| reflexivity].
    apply occurs_TrimPrefix in E.
    rewrite PathUnescape_no_percent in E.
    + simpl in E. now rewrite plusToSpace_no_plus in E.
    + destruct (occurs url.percent (plusToSpace (strings.TrimSpace uri))) eqn:E'; [| reflexivity].
      apply occurs_plusToSpace in E' as [E' | E']; [discriminate E' |].
      apply occurs_TrimSpace in E'. congruence.
Qed.

(** A document under [/proj/a+b]: the program reads under [/proj/a b]. *)
Lemma toFilePath_plus_is_space_witness :
  toFilePath "file:///proj/a+b/Xor.hdl" = "///proj/a b/Xor.hdl" /\
  occurs url.plus (toFilePath "file:///proj/a+b/Xor.hdl") = false.
Proof.
  pose proof (toFilePath_plus_is_space Example.world "file:///proj/a+b/Xor.hdl")
    as (Hpath & _ & _ & _ & Hplus).
  split.
  - rewrite Hpath. vm_compute. reflexivity.
  - apply Hplus. vm_compute. reflexivity.
Defined.

(** ** The chip catalog *)

(** A walk adds the names of its calls to the catalog it is given, and
    fails with its first error; neither depends on the catalog. *)
Lemma runWalkDir_spec (calls : list WalkCall) (chips : gset string) :
  runWalkDir calls chips = (walkNames calls ∪ chips, firstWalkError calls).
Proof.
  revert chips. induction calls as [| c rest IH]; intros chips.
  - cbn. f_equal. set_solver.
  - cbn [runWalkDir walkNames firstWalkError]. unfold walkDirFn.
    destruct (walk_err c) as [err |].
    + f_equal. set_solver.
    + destruct (negb (walk_isDir c) && String.eqb (filepath.Ext (walk_path c)) ext);
        rewrite IH; f_equal; set_solver.
Qed.

Lemma collectChips_spec (w : World) (dir : string) (chips : gset string) :
  collectChips w dir chips =
    (walkNames (WalkDir w dir) ∪ chips,
     Wrapped "error walking dir" <$> firstWalkError (WalkDir w dir)).
Proof.
  unfold collectChips. rewrite runWalkDir_spec.
  now destruct (firstWalkError (WalkDir w dir)).
Qed.

(** C8: collecting twice over the same directory tree, from any catalog,
    gives the catalog and the result of collecting once. *)
Theorem collectChips_idempotent (w : World) (dir : string) (chips : gset string) :
  collectChips w dir (fst (collectChips w dir chips)) = collectChips w dir chips.
Proof.
  rewrite !collectChips_spec. cbn [fst]. f_equal. set_solver.
Qed.

Lemma collectChips_superset (w : World) (dir : string) (chips : gset string) :
  chips ⊆ fst (collectChips w dir chips).
Proof. rewrite collectChips_spec. cbn [fst]. set_solver. Qed.

Lemma publishDiagnostics_catalog (w : World) (source uri : string) (version : Z) (s : Server) :
  implementedChips (fst (publishDiagnostics w source uri version s)) = implementedChips s.
Proof.
  unfold publishDiagnostics.
  destruct (walk _ _ _ _); [| reflexivity | reflexivity].
  destruct (Marshal w _); [reflexivity |].
  destruct (SendNotification w _); reflexivity.
Qed.

Lemma publishChanges_catalog (w : World) (uri : string) (version : Z)
    (changes : list any) (s : Server) :
  implementedChips (fst (publishChanges w uri version changes s)) = implementedChips s.
Proof.
  revert s. induction changes as [| c rest IH]; intros s; [reflexivity |].
  cbn [publishChanges]. destruct c as [text |]; [| reflexivity].
  pose proof (publishDiagnostics_catalog w text uri version s) as Hp.
  destruct (publishDiagnostics w text uri version s) as [s' [[] | err |]]; cbn [fst] in *;
    [rewrite IH |..]; exact Hp.
Qed.

Lemma OnDidOpenTextDocument_catalog (w : World) (req : DidOpenTextDocumentParams) (s : Server) :
  implementedChips s ⊆ implementedChips (fst (OnDidOpenTextDocument w req s)).
Proof.
  unfold OnDidOpenTextDocument.
  pose proof (collectChips_superset w (builtInChipsDir (open_Uri req)) (implementedChips s)) as H1.
  destruct (collectChips w (builtInChipsDir (open_Uri req)) (implementedChips s))
    as [chips1 [err |]]; cbn [fst] in *; [exact H1 |].
  pose proof (collectChips_superset w (baseDir (open_Uri req)) chips1) as H2.
  destruct (collectChips w (baseDir (open_Uri req)) chips1)
    as [chips2 [err |]]; cbn [fst] in *; [set_solver |].
  rewrite publishDiagnostics_catalog. cbn. set_solver.
Qed.

Lemma handle_catalog (s : Server) (we : World * Event) :
  implementedChips s ⊆ implementedChips (handle s we).
Proof.
  destruct we as [w [req | req | req]]; cbn [handle].
  - apply OnDidOpenTextDocument_catalog.
  - unfold OnDidChangeTextDocument. now rewrite publishChanges_catalog.
  - reflexivity.
Qed.

(** C9: whatever the event and whatever the state of the disk at the time
    (files deleted or renamed since the last scan), the catalog after the
    event holds every name it held before; so it does after any sequence
    of events. *)
Theorem catalog_never_shrinks (s : Server) :
  (forall (w : World) (e : Event),
     implementedChips s ⊆ implementedChips (handle s (w, e))) /\
  (forall trace : list (World * Event),
     implementedChips s ⊆ implementedChips (run s trace)).
Proof.
  split; [intros w e; apply handle_catalog |].
  intros trace. revert s. unfold run.
  induction trace as [| we trace IH]; intros s; [reflexivity |].
  cbn [fold_left]. etransitivity; [apply handle_catalog | apply IH].
Qed.

(** C7: when the walk of the built-in directory fails, or that one
    succeeds and the walk of the document's directory fails, the handler
    returns the error of the walk, wrapped, and hands no notification to
    the transport; the outcome is a returned error, not a panic. *)
Theorem OnDidOpenTextDocument_walk_failure
    (w : World) (req : DidOpenTextDocumentParams) (s : Server) (err : error) :
  (firstWalkError (WalkDir w (builtInChipsDir (open_Uri req))) = Some err ->
   snd (OnDidOpenTextDocument w req s) =
     Fail (Wrapped "collect primitive builtin chips" (Wrapped "error walking dir" err)) /\
   sent (fst (OnDidOpenTextDocument w req s)) = sent s) /\
  (firstWalkError (WalkDir w (builtInChipsDir (open_Uri req))) = None ->
   firstWalkError (WalkDir w (baseDir (open_Uri req))) = Some err ->
   snd (OnDidOpenTextDocument w req s) =
     Fail (Wrapped "collect implemented chips" (Wrapped "error walking dir" err)) /\
   sent (fst (OnDidOpenTextDocument w req s)) = sent s).
Proof.
  unfold OnDidOpenTextDocument. rewrite collectChips_spec. split.
  - intros ->. cbn. split; reflexivity.
  - intros -> H2. cbn [fmap option_fmap option_map]. rewrite collectChips_spec, H2.
    cbn. split; reflexivity.
Qed.

(** Opening [/tmp/empty.hdl], for which [/tools/builtInChips] is missing;
    and opening a new document in the directory [/proj/projects/02], which
    is not on disk yet, while [/proj/tools/builtInChips] is. *)
Lemma OnDidOpenTextDocument_walk_failure_witness :
  (snd (OnDidOpenTextDocument Example.world Example.emptyOpen Example.server0) =
     Fail (Wrapped "collect primitive builtin chips"
             (Wrapped "error walking dir" ErrNotExist)) /\
   sent (fst (OnDidOpenTextDocument Example.world Example.emptyOpen Example.server0)) = []) /\
  (snd (OnDidOpenTextDocument Example.world
          (mkDidOpen "file:///proj/projects/02/New.hdl" "CHIP New {}" 1) Example.server0) =
     Fail (Wrapped "collect implemented chips"
             (Wrapped "error walking dir" ErrNotExist)) /\
   sent (fst (OnDidOpenTextDocument Example.world
                (mkDidOpen "file:///proj/projects/02/New.hdl" "CHIP New {}" 1)
                Example.server0)) = []).
Proof.
  split.
  - apply (OnDidOpenTextDocument_walk_failure
             Example.world Example.emptyOpen Example.server0 ErrNotExist).
    vm_compute. reflexivity.
  - apply (OnDidOpenTextDocument_walk_failure
             Example.world (mkDidOpen "file:///proj/projects/02/New.hdl" "CHIP New {}" 1)
             Example.server0 ErrNotExist).
    + vm_compute. reflexivity.
    + vm_compute. reflexivity.
Defined.

(** ** The diagnostic walk *)

(** Induction over a tree: a property that holds of a node whenever it
    holds of its children holds of every node. *)
Lemma Node_children_ind (P : Node -> Prop) :
  (forall n, Forall P (Children n) -> P n) -> forall n, P n.
Proof.
  intros H. fix IH 1. intros n. apply H.
  destruct n as [k nm er f sb eb sp ep cs]. cbn [Children].
  induction cs as [| c cs IHcs]; constructor; [apply IH | exact IHcs].
Qed.

Lemma foldNodes_app {S : Type} (step : Node -> S -> outcome S) (l1 l2 : list Node) (st : S) :
  foldNodes step (l1 ++ l2) st = (st' ← foldNodes step l1 st; foldNodes step l2 st').
Proof.
  revert st. induction l1 as [| n l1 IH]; intros st; [reflexivity |].
  cbn [foldNodes app]. destruct (step n st) as [st' | err |]; cbn; [apply IH | reflexivity..].
Qed.

(** Pre-order: the node, then the pre-orders of its named children. *)
Lemma preorder_NamedChildren (n : Node) :
  preorder n = n :: concat (map preorder (NamedChildren n)).
Proof.
  destruct n as [k nm er f sb eb sp ep cs]. cbn [preorder]. f_equal.
  unfold NamedChildren. cbn [Children].
  induction cs as [| c cs IH]; [reflexivity |].
  cbn [List.filter]. destruct (IsNamed c); [| exact IH].
  cbn [map concat]. now rewrite IH.
Qed.

(** The walk visits the nodes of the tree that are reached through named
    children, in pre-order, and stops at the first visit that fails. *)
Lemma walk_preorder (chips : gset string) (source : string) (n : Node) (st : walkState) :
  walk chips source n st = foldNodes (visit chips source) (preorder n) st.
Proof.
  revert st. induction n as [n IHn] using Node_children_ind. intros st.
  destruct n as [k nm er f sb eb sp ep cs]. cbn [Children] in IHn.
  cbn [walk preorder foldNodes].
  destruct (visit chips source _ st) as [st1 | err |]; cbn; [| reflexivity..].
  clear st. revert st1.
  induction IHn as [| c cs Hc _ IHcs]; intros st; [reflexivity |].
  destruct (IsNamed c); [| apply IHcs].
  rewrite foldNodes_app, <- Hc.
  destruct (walk chips source c st) as [st' | err |]; cbn; [apply IHcs | reflexivity..].
Qed.

Lemma newDiagnostic_Some (n : Node) (msg : string) :
  newDiagnostic (Some n) msg = Done (diagnosticAt n msg).
Proof. reflexivity. Qed.




(** The loop over the children of a part: the first error node decides;
    when its trimmed text begins with a closing parenthesis the diagnostic
    goes to its second child, and without a second child [newDiagnostic]
    dereferences nil. *)
Lemma scanChildren_first_error (source : string) (children : list Node) (ds : list Diagnostic) :
  scanChildren source children ds =
    match List.find IsError children with
    | None => Done ds
    | Some child =>
        childText ← slice source (StartByte child) (EndByte child);
        if strings.HasPrefix (strings.TrimSpace childText) ")" then
          match Child child 1 with
          | Some second => Done (ds ++ [diagnosticAt second msgSemicolon])
          | None => Panic
          end
        else Done ds
    end.
Proof.
  induction children as [| child rest IH]; [reflexivity |].
  cbn [scanChildren List.find]. destruct (IsError child); [| exact IH].
  destruct (slice source (StartByte child) (EndByte child)) as [text | err |];
    cbn [mbind outcome_bind]; [| reflexivity..].
  destruct (strings.HasPrefix (strings.TrimSpace text) ")"); [| reflexivity].
  now destruct (Child child 1).
Qed.

(** At most one such diagnostic for a part, whatever its children. *)
Lemma scanChildren_at_most_one (source : string) (children : list Node) (ds ds' : list Diagnostic) :
  scanChildren source children ds = Done ds' ->
  ds' = ds \/ exists second, ds' = ds ++ [diagnosticAt second msgSemicolon].
Proof.
  rewrite scanChildren_first_error.
  destruct (List.find IsError children) as [child |]; [| intros [= <-]; now left].
  destruct (slice source (StartByte child) (EndByte child)) as [text | err |];
    cbn [mbind outcome_bind]; [| discriminate..].
  destruct (strings.HasPrefix (strings.TrimSpace text) ")"); [| intros [= <-]; now left].
  destruct (Child child 1) as [second |]; [| discriminate].
  intros [= <-]. right. now exists second.
Qed.

(** ** Definition requests *)

Section Resolver.

Variables (w : World) (req : DefinitionParams) (s : Server).
Variables (source : string) (offset : Z).

Hypothesis Hread : readFile w (def_Uri req) = Done source.
Hypothesis Hoffset :
  getByteOffset source (int_of_uint (Line (def_Position req)))
                       (int_of_uint (Character (def_Position req))) = Done offset.

(** What is left of the handler once the document is read and the offset
    computed. *)
Lemma OnDefinition_at_offset :
  OnDefinition w req s =
    (node ← orPanic (DescendantParent (Parse w source)
                       (uint_of_int offset) (uint_of_int offset));
     if String.eqb (strings.TrimSuffix (Kind node) nl) nodeKindPart then
       match ChildByFieldName node "chip_name" with
       | Some name =>
           primitiveChipName ← slice source (StartByte name) (EndByte name);
           let targetUri := targetUriFor w (def_Uri req) (primitiveChipName +:+ ext) in
           _ ← readFile w targetUri;
           let targetRange :=
             targetRangeOf (definitionWalk (Parse w source) (zeroPoint, zeroPoint)) in
           Done (Some [ {| TargetUri := "file://" +:+ targetUri;
                           TargetRange := targetRange;
                           TargetSelectionRange := targetRange |} ])
       | None => Done None
       end
     else Done None).
Proof.
  unfold OnDefinition. rewrite Hread. cbn [mbind outcome_bind].
  rewrite Hoffset. reflexivity.
Qed.

(** The smallest node at the offset is the root: [Parent()] is nil and
    [node.Kind()] dereferences it. *)
Lemma OnDefinition_on_root :
  DescendantParent (Parse w source) (uint_of_int offset) (uint_of_int offset) = None ->
  OnDefinition w req s = Panic.
Proof. intros Hp. rewrite OnDefinition_at_offset, Hp. reflexivity. Qed.

(** X18: The parent is there and is not a part, or is a part without the
    [chip_name] field: no result and no error. *)
Lemma OnDefinition_not_on_part (node : Node) :
  DescendantParent (Parse w source) (uint_of_int offset) (uint_of_int offset) = Some node ->
  strings.TrimSuffix (Kind node) nl <> nodeKindPart
    \/ ChildByFieldName node "chip_name" = None ->
  OnDefinition w req s = Done None.
Proof.
  intros Hp Hout. rewrite OnDefinition_at_offset, Hp. cbn [orPanic mbind outcome_bind].
  destruct (String.eqb_spec (strings.TrimSuffix (Kind node) nl) nodeKindPart) as [Hk | Hk];
    [| reflexivity].
  destruct Hout as [Hout | Hout]; [contradiction |]. now rewrite Hout.
Qed.

(** The parent is a part with a [chip_name]: the target is read, and the
    range comes from the walk over the tree of the document. *)
Lemma OnDefinition_on_part (node name : Node) (chipName : string) :
  DescendantParent (Parse w source) (uint_of_int offset) (uint_of_int offset) = Some node ->
  strings.TrimSuffix (Kind node) nl = nodeKindPart ->
  ChildByFieldName node "chip_name" = Some name ->
  slice source (StartByte name) (EndByte name) = Done chipName ->
  OnDefinition w req s =
    (let targetUri := targetUriFor w (def_Uri req) (chipName +:+ ext) in
     let targetRange :=
       targetRangeOf (definitionWalk (Parse w source) (zeroPoint, zeroPoint)) in
     _ ← readFile w targetUri;
     Done (Some [ {| TargetUri := "file://" +:+ targetUri;
                     TargetRange := targetRange;
                     TargetSelectionRange := targetRange |} ])).
Proof.
  intros Hp Hk Hname Htext. rewrite OnDefinition_at_offset, Hp.
  cbn [orPanic mbind outcome_bind]. rewrite Hk.
  change (String.eqb nodeKindPart nodeKindPart) with true. cbn iota.
  rewrite Hname, Htext. reflexivity.
Qed.

End Resolver.

Lemma lastDefinitionName_app (l1 l2 : list Node) :
  lastDefinitionName (l1 ++ l2) =
    match lastDefinitionName l2 with
    | Some name => Some name
    | None => lastDefinitionName l1
    end.
Proof.
  induction l1 as [| n l1 IH]; cbn [app lastDefinitionName].
  - now destruct (lastDefinitionName l2).
  - rewrite IH. now destruct (lastDefinitionName l2).
Qed.

(** The walk of [OnDefinition] ends with the span of the name of the last
    definition node, in pre-order, of the tree it is run on, and with the
    positions it started from when there is none. *)
Lemma definitionWalk_last (n : Node) (st : Point * Point) :
  definitionWalk n st =
    match lastDefinitionName (preorder n) with
    | Some name => (StartPosition name, EndPosition name)
    | None => st
    end.
Proof.
  revert st. induction n as [n IHn] using Node_children_ind. intros st.
  destruct n as [k nm er f sb eb sp ep cs]. cbn [Children] in IHn.
  cbn [definitionWalk preorder lastDefinitionName].
  set (this := mkNode k nm er f sb eb sp ep cs).
  set (pc := (fix preorderChildren (cs0 : list Node) : list Node :=
                match cs0 with
                | [] => []
                | c :: cs' =>
                    if IsNamed c then preorder c ++ preorderChildren cs'
                    else preorderChildren cs'
                end) cs).
  set (wc := (fix walkChildren (cs0 : list Node) (st0 : Point * Point) : Point * Point :=
                match cs0 with
                | [] => st0
                | c :: cs' =>
                    if IsNamed c then walkChildren cs' (definitionWalk c st0)
                    else walkChildren cs' st0
                end) cs).
  assert (Hwc : forall st0, wc st0 =
            match lastDefinitionName pc with
            | Some name => (StartPosition name, EndPosition name)
            | None => st0
            end).
  { subst wc pc. clear this.
    induction IHn as [| c cs Hc _ IHcs]; intros st0; [reflexivity |].
    destruct (IsNamed c); [| apply IHcs].
    rewrite IHcs, lastDefinitionName_app, Hc.
    match goal with
    | |- context [lastDefinitionName (?f cs)] => now destruct (lastDefinitionName (f cs))
    end. }
  rewrite Hwc. destruct (lastDefinitionName pc); [reflexivity |].
  unfold definitionName.
  destruct (String.eqb (strings.TrimSpace (Kind this)) nodeKindChipDefinition); [| reflexivity].
  now destruct (ChildByFieldName this "name").
Qed.

(** X19: Whenever a location is returned, it is one location, its two ranges
    are the same, and they are the span of the name of the last definition
    node of the tree of the document the request is made in. *)
Lemma OnDefinition_location (w : World) (req : DefinitionParams) (s : Server)
    (links : list LocationLink) :
  OnDefinition w req s = Done (Some links) ->
  exists source loc,
    readFile w (def_Uri req) = Done source /\
    links = [loc] /\
    TargetRange loc = TargetSelectionRange loc /\
    TargetRange loc =
      match lastDefinitionName (preorder (Parse w source)) with
      | Some name => spanOf name
      | None => targetRangeOf (zeroPoint, zeroPoint)
      end.
Proof.
  unfold OnDefinition.
  destruct (readFile w (def_Uri req)) as [source | err |]; cbn [mbind outcome_bind];
    [| discriminate..].
  destruct (getByteOffset source _ _) as [offset | err |]; cbn [mbind outcome_bind];
    [| discriminate..].
  destruct (DescendantParent _ _ _) as [node |]; cbn [orPanic mbind outcome_bind];
    [| discriminate].
  destruct (String.eqb _ nodeKindPart); [| discriminate].
  destruct (ChildByFieldName node "chip_name") as [name |]; [| discriminate].
  destruct (slice source _ _) as [chipName | err |]; cbn [mbind outcome_bind];
    [| discriminate..].
  destruct (readFile w _) as [targetSource | err |]; cbn [mbind outcome_bind];
    [| discriminate..].
  intros [= <-]. eexists source, _. split; [reflexivity |]. split; [reflexivity |].
  cbn [TargetRange TargetSelectionRange]. split; [reflexivity |].
  rewrite definitionWalk_last. now destruct (lastDefinitionName _).
Qed.

(** C6 at an empty document, cursor at its start: the file is read, the
    offset is 0, the smallest node at the offset is the root, whose parent
    is nil; the handler does not return an empty result, it panics. *)
Theorem OnDefinition_empty_document :
  readFile Example.world Example.emptyUri = Done EmptyString /\
  getByteOffset EmptyString 0 0 = Done 0 /\
  DescendantForByteRange (Parse Example.world EmptyString) 0 0
    = Parse Example.world EmptyString /\
  DescendantParent (Parse Example.world EmptyString) 0 0 = None /\
  OnDefinition Example.world Example.emptyRequest Example.server0 = Panic.
Proof. repeat split; vm_compute; reflexivity. Qed.

(** C1: on a part whose target file is read, the location carries the
    span of the name of the last definition node of the tree of the
    requesting document, in both ranges; when the last definition node of
    the target's tree has its name elsewhere, that is not the span the
    target calls for.  The closure is run on [tree], not on
    [targetTree]. *)
Theorem OnDefinition_range_of_document
    (w : World) (req : DefinitionParams) (s : Server)
    (source : string) (offset : Z) (node name : Node) (chipName targetSource : string)
    (documentName targetName : Node) :
  readFile w (def_Uri req) = Done source ->
  getByteOffset source (int_of_uint (Line (def_Position req)))
                       (int_of_uint (Character (def_Position req))) = Done offset ->
  DescendantParent (Parse w source) (uint_of_int offset) (uint_of_int offset) = Some node ->
  strings.TrimSuffix (Kind node) nl = nodeKindPart ->
  ChildByFieldName node "chip_name" = Some name ->
  slice source (StartByte name) (EndByte name) = Done chipName ->
  readFile w (targetUriFor w (def_Uri req) (chipName +:+ ext)) = Done targetSource ->
  lastDefinitionName (preorder (Parse w source)) = Some documentName ->
  lastDefinitionName (preorder (Parse w targetSource)) = Some targetName ->
  spanOf documentName <> spanOf targetName ->
  exists loc : LocationLink,
    OnDefinition w req s = Done (Some [loc]) /\
    TargetUri loc = "file://" +:+ targetUriFor w (def_Uri req) (chipName +:+ ext) /\
    TargetRange loc = spanOf documentName /\
    TargetSelectionRange loc = spanOf documentName /\
    TargetRange loc <> spanOf targetName.
Proof.
  intros Hread Hoffset Hparent Hkind Hname Htext Htarget Hdoc _ Hne.
  rewrite (OnDefinition_on_part w req s source offset Hread Hoffset
             node name chipName Hparent Hkind Hname Htext).
  cbn zeta. rewrite Htarget. cbn [mbind outcome_bind].
  eexists. split; [reflexivity |]. cbn [TargetUri TargetRange TargetSelectionRange].
  rewrite definitionWalk_last, Hdoc. now repeat split.
Qed.

(** The request on the part [Not] of [Xor.hdl] (line 4, character 5), with
    [Not.hdl] next to it: the location names [Not.hdl], whose chip has its
    name on line 1, and carries the span of the name [Xor] on line 0 of
    the document. *)
Lemma OnDefinition_range_of_document_witness :
  exists loc : LocationLink,
    OnDefinition Example.world Example.request Example.server0 = Done (Some [loc]) /\
    TargetUri loc = "file:///proj/projects/01/Not.hdl" /\
    TargetRange loc = {| Start := {| Line := 0; Character := 5 |};
                         End_ := {| Line := 0; Character := 8 |} |} /\
    TargetSelectionRange loc = {| Start := {| Line := 0; Character := 5 |};
                                  End_ := {| Line := 0; Character := 8 |} |} /\
    TargetRange loc <> {| Start := {| Line := 1; Character := 5 |};
                          End_ := {| Line := 1; Character := 8 |} |}.
Proof.
  apply (OnDefinition_range_of_document Example.world Example.request Example.server0
           Example.docSource 53 Example.docPart Example.docChipName "Not"
           Example.notSource Example.docName Example.notName);
    try reflexivity.
  vm_compute. discriminate.
Defined.

(** C3: on a part whose [chip_name] reads [chipName], when the file
    [chipName.hdl] exists in the directory of the document and is read, the
    location returned is that file, whether or not the built-in directory
    has one too; and a location that is not that file is the built-in one,
    returned after [os.Stat] reported the file of the document's directory
    missing. *)
Theorem OnDefinition_prefers_document_directory
    (w : World) (req : DefinitionParams) (s : Server)
    (source : string) (offset : Z) (node name : Node) (chipName : string) :
  let uri := def_Uri req in
  let workspace := filepath.Join [baseDir uri; chipName +:+ ext] in
  let builtIn := filepath.Join [builtInChipsDir uri; chipName +:+ ext] in
  readFile w uri = Done source ->
  getByteOffset source (int_of_uint (Line (def_Position req)))
                       (int_of_uint (Character (def_Position req))) = Done offset ->
  DescendantParent (Parse w source) (uint_of_int offset) (uint_of_int offset) = Some node ->
  strings.TrimSuffix (Kind node) nl = nodeKindPart ->
  ChildByFieldName node "chip_name" = Some name ->
  slice source (StartByte name) (EndByte name) = Done chipName ->
  (forall targetSource,
     Stat w workspace = None ->
     readFile w workspace = Done targetSource ->
     exists range,
       OnDefinition w req s =
         Done (Some [ {| TargetUri := "file://" +:+ workspace;
                         TargetRange := range;
                         TargetSelectionRange := range |} ])) /\
  (forall links loc,
     OnDefinition w req s = Done (Some links) ->
     In loc links ->
     TargetUri loc <> "file://" +:+ workspace ->
     TargetUri loc = "file://" +:+ builtIn /\
     exists err, Stat w workspace = Some err /\ errors_Is_NotExist err = true).
Proof.
  intros uri workspace builtIn Hread Hoffset Hparent Hkind Hname Htext.
  pose proof (OnDefinition_on_part w req s source offset Hread Hoffset
                node name chipName Hparent Hkind Hname Htext) as Hdef.
  fold uri in Hdef. cbn zeta in Hdef. split.
  - intros targetSource Hstat Htarget. eexists. rewrite Hdef.
    unfold targetUriFor. fold workspace. rewrite Hstat, Htarget. reflexivity.
  - intros links loc Hlinks Hin Hne. rewrite Hdef in Hlinks.
    destruct (readFile w (targetUriFor w uri (chipName +:+ ext))) as [t | e |];
      cbn [mbind outcome_bind] in Hlinks; [| discriminate..].
    injection Hlinks as <-. destruct Hin as [<- | []].
    cbn [TargetUri] in Hne |- *. unfold targetUriFor in Hne |- *.
    fold workspace builtIn in Hne |- *.
    destruct (Stat w workspace) as [err |]; [| contradiction].
    destruct (errors_Is_NotExist err) eqn:E; [| contradiction].
    split; [reflexivity |]. now exists err.
Qed.

(** [Not.hdl] is in [/proj/projects/01] and in [/proj/tools/builtInChips]:
    the location is the one of [/proj/projects/01]. *)
Lemma OnDefinition_prefers_document_directory_witness :
  Stat Example.world "/proj/projects/01/Not.hdl" = None /\
  Stat Example.world "/proj/tools/builtInChips/Not.hdl" = None /\
  exists range,
    OnDefinition Example.world Example.request Example.server0 =
      Done (Some [ {| TargetUri := "file:///proj/projects/01/Not.hdl";
                      TargetRange := range;
                      TargetSelectionRange := range |} ]).
Proof.
  split; [reflexivity |]. split; [reflexivity |].
  destruct (OnDefinition_prefers_document_directory
              Example.world Example.request Example.server0
              Example.docSource 53 Example.docPart Example.docChipName "Not")
    as [Hws _]; try (vm_compute; reflexivity).
  destruct (Hws Example.notSource) as [range Hrange]; try (vm_compute; reflexivity).
  exists range. exact Hrange.
Defined.

(** * Further properties *)

(** ** Position translator *)

(** Line 1, character 2 of the text ["ab\ncde"] is at offset 5. *)
Lemma getByteOffset_within_text_witness :
  0 <= 5 <= len ("ab" +:+ nl +:+ "cde").
Proof.
  apply (getByteOffset_within_text ("ab" +:+ nl +:+ "cde") 1 2 5). reflexivity.
Defined.

Lemma linesOffset_nonneg (lines : list string) (n : nat) : 0 <= linesOffset lines n.
Proof.
  revert n. induction lines as [| l lines IH]; intros [| n]; cbn [linesOffset]; try lia.
  specialize (IH n). unfold len. lia.
Qed.

(** The byte of the text at the offset of line [n], plus [c], is byte [c]
    of line [n]. *)
Lemma Split_get (text : string) (n c : nat) (l : string) :
  nth_error (strings.Split text strings.newline) n = Some l ->
  (c < String.length l)%nat ->
  String.get (Z.to_nat (linesOffset (strings.Split text strings.newline) n) + c) text
    = String.get c l.
Proof.
  revert n c l. induction text as [| a r IH]; intros n c l Hl Hc.
  - cbn in Hl. destruct n as [| [| n]]; cbn in Hl; try discriminate.
    injection Hl as <-. cbn in Hc. lia.
  - cbn [strings.Split] in *.
    destruct (Ascii.eqb a strings.newline).
    + destruct n as [| n]; cbn [nth_error] in Hl.
      * injection Hl as <-. cbn in Hc. lia.
      * cbn [linesOffset].
        pose proof (linesOffset_nonneg (strings.Split r strings.newline) n) as Hnn.
        replace (Z.to_nat (len EmptyString + 1 + linesOffset (strings.Split r strings.newline) n) + c)%nat
          with (S (Z.to_nat (linesOffset (strings.Split r strings.newline) n) + c))
          by (unfold len; cbn [String.length]; lia).
        cbn [String.get]. now apply IH.
    + pose proof (Split_not_nil r strings.newline) as Hne.
      destruct (strings.Split r strings.newline) as [| h t] eqn:Er; [congruence |].
      destruct n as [| n]; cbn [nth_error] in Hl.
      * injection Hl as <-. cbn [linesOffset Z.to_nat Nat.add].
        destruct c as [| c]; [reflexivity |]. cbn [String.get].
        apply (IH O c h); [reflexivity | cbn in Hc; lia].
      * pose proof (linesOffset_nonneg t n) as Hnn.
        specialize (IH (S n) c l Hl Hc). cbn [linesOffset] in IH |- *.
        replace (Z.to_nat (len (String a h) + 1 + linesOffset t n) + c)%nat
          with (S (Z.to_nat (len h + 1 + linesOffset t n) + c))
          by (unfold len; cbn [String.length]; lia).
        cbn [String.get]. exact IH.
Qed.

(** X2: For a line of the text and a character index within it, the offset
    returned addresses that very byte: the byte of the text at the offset
    is the byte of the line at the character index. *)
Theorem getByteOffset_addresses_byte (text : string) (line char : Z) (l : string) :
  0 <= line ->
  nth_error (strings.Split text strings.newline) (Z.to_nat line) = Some l ->
  0 <= char < len l ->
  exists offset,
    getByteOffset text line char = Done offset /\
    String.get (Z.to_nat offset) text = String.get (Z.to_nat char) l.
Proof.
  intros Hline Hl Hchar.
  rewrite (getByteOffset_on_line text line char l Hline Hl).
  destruct (sliceTo_ok l char) as (pre & -> & Hlen); [lia |].
  cbn [mbind outcome_bind]. eexists. split; [reflexivity |].
  rewrite Hlen.
  pose proof (linesOffset_nonneg (strings.Split text strings.newline) (Z.to_nat line)).
  rewrite Z2Nat.inj_add by lia.
  apply Split_get; [exact Hl | unfold len in Hchar; lia].
Qed.

(** Line 1, character 2 of ["ab\ncde"] is the byte [e], at offset 5. *)
Lemma getByteOffset_addresses_byte_witness :
  exists offset,
    getByteOffset ("ab" +:+ nl +:+ "cde") 1 2 = Done offset /\
    String.get (Z.to_nat offset) ("ab" +:+ nl +:+ "cde") = String.get (Z.to_nat 2) "cde".
Proof.
  apply (getByteOffset_addresses_byte ("ab" +:+ nl +:+ "cde") 1 2 "cde");
    [lia | reflexivity | vm_compute; split; [discriminate | reflexivity]].
Defined.

(** X3: A line index that is negative, or equal to the number of lines, gets
    past the guard [line > len(lines)] and panics at [lines[line]],
    whatever the character index. *)
Theorem getByteOffset_line_out_of_range (text : string) (line char : Z) :
  line < 0 \/ line = llen (strings.Split text strings.newline) ->
  getByteOffset text line char = Panic.
Proof.
  intros [Hneg | ->]; [| apply getByteOffset_line_equal_count].
  unfold getByteOffset.
  set (lines := strings.Split text strings.newline).
  destruct (Z.gtb_spec line (llen lines)) as [Hgt | _]; [unfold llen in Hgt; lia |].
  replace (Z.to_nat line) with O by lia. cbn [sumLines mbind outcome_bind].
  now rewrite index_out_of_range by (left; lia).
Qed.

(** The text ["ab\ncde"] has two lines: line 2 panics. *)
Lemma getByteOffset_line_out_of_range_witness :
  getByteOffset ("ab" +:+ nl +:+ "cde") 2 0 = Panic.
Proof.
  apply (getByteOffset_line_out_of_range ("ab" +:+ nl +:+ "cde") 2 0).
  right. reflexivity.
Defined.

(** ** URI to path *)

Lemma plusToSpace_no_plus_id (s : string) :
  occurs url.plus s = false -> plusToSpace s = s.
Proof.
  induction s as [| c r IH]; [reflexivity |].
  cbn [occurs plusToSpace]. intros H. apply orb_false_iff in H as [Hc Hr].
  rewrite Hc. now rewrite IH.
Qed.

(** X4: A string without ['%'], without ['+'] and without white space at its
    ends goes through [toFilePath] unchanged but for a leading ["file:"]:
    a plain path is left as it is, which is what makes the second
    decoding of [readFile(targetUri)] harmless for such paths, and of a
    [file://] URI the two slashes stay. *)
Theorem toFilePath_plain (s : string) :
  occurs url.percent s = false ->
  occurs url.plus s = false ->
  strings.TrimSpace s = s ->
  toFilePath s = strings.TrimPrefix s "file:".
Proof.
  intros Hpc Hpl Htrim. unfold toFilePath.
  rewrite Htrim, QueryUnescape_plusToSpace, plusToSpace_no_plus_id by exact Hpl.
  now rewrite PathUnescape_no_percent.
Qed.

Lemma toFilePath_plain_witness :
  toFilePath "/proj/projects/01/Not.hdl" = "/proj/projects/01/Not.hdl" /\
  toFilePath "file:///proj/projects/01/Xor.hdl" = "///proj/projects/01/Xor.hdl".
Proof.
  split.
  - rewrite (toFilePath_plain "/proj/projects/01/Not.hdl"); reflexivity.
  - rewrite (toFilePath_plain "file:///proj/projects/01/Xor.hdl"); reflexivity.
Defined.

(** X5: When the URI does not decode (a ['%'] without two hexadecimal digits
    after it), the error is dropped: the path is empty, the directory of
    the document is ["."] and the built-in directory is
    ["../../tools/builtInChips"], both relative to the working directory
    of the process. *)
Theorem toFilePath_malformed_escape (uri : string) :
  url.QueryUnescape (strings.TrimSpace uri) = None ->
  toFilePath uri = EmptyString /\
  baseDir uri = "." /\
  builtInChipsDir uri = "../../tools/builtInChips".
Proof.
  intros H.
  assert (Hp : toFilePath uri = EmptyString) by (unfold toFilePath; now rewrite H).
  unfold builtInChipsDir, baseDir. rewrite Hp. repeat split; reflexivity.
Qed.

Lemma toFilePath_malformed_escape_witness :
  toFilePath "file:///proj/100%/Xor.hdl" = EmptyString /\
  baseDir "file:///proj/100%/Xor.hdl" = "." /\
  builtInChipsDir "file:///proj/100%/Xor.hdl" = "../../tools/builtInChips".
Proof.
  apply (toFilePath_malformed_escape "file:///proj/100%/Xor.hdl"). reflexivity.
Defined.

(** ** The chip catalog *)

Lemma walkNames_elem (calls : list WalkCall) (x : string) :
  x ∈ walkNames calls <->
  exists c, In c (callsBeforeError calls) /\ isChipFile c = true /\ chipNameOf c = x.
Proof.
  induction calls as [| c rest IH]; cbn [walkNames callsBeforeError].
  - split; [set_solver | intros (c & [] & _)].
  - destruct (walk_err c) as [err |].
    + split; [set_solver | intros (c' & [] & _)].
    + rewrite elem_of_union, IH. fold (isChipFile c). fold (chipNameOf c). split.
      * intros [Hx | (c' & Hin & Hf & Hn)].
        -- destruct (isChipFile c) eqn:Ef; [| now apply not_elem_of_empty in Hx].
           apply elem_of_singleton in Hx. exists c.
           split; [now left | split; [exact Ef | now symmetry]].
        -- exists c'. split; [now right | now split].
      * intros (c' & [<- | Hin] & Hf & Hn).
        -- left. rewrite Hf. set_solver.
        -- right. now exists c'.
Qed.

(** X7: After [collectChips], a name is in the catalog exactly when it was in
    it before or it is the base name, without [.hdl], of an entry the walk
    reached before its first error that is not a directory and has the
    extension [.hdl]; the error returned is the first error of the walk,
    wrapped.  So directories and other files add nothing, and the names
    found before a failure stay. *)
Theorem collectChips_membership (w : World) (dir : string) (chips : gset string) :
  (forall x : string,
     x ∈ fst (collectChips w dir chips) <->
     x ∈ chips \/
     exists c, In c (callsBeforeError (WalkDir w dir))
               /\ walk_isDir c = false
               /\ filepath.Ext (walk_path c) = ".hdl"
               /\ strings.TrimSuffix (filepath.Base (walk_path c)) ".hdl" = x) /\
  snd (collectChips w dir chips)
    = Wrapped "error walking dir" <$> firstWalkError (WalkDir w dir).
Proof.
  rewrite collectChips_spec. cbn [fst snd]. split; [| reflexivity].
  intros x. rewrite elem_of_union, walkNames_elem. split.
  - intros [(c & Hin & Hf & Hn) | Hx]; [right | now left].
    exists c. unfold isChipFile in Hf. apply andb_true_iff in Hf as [Hd He].
    apply negb_true_iff in Hd. apply String.eqb_eq in He. now repeat split.
  - intros [Hx | (c & Hin & Hd & He & Hn)]; [now right | left].
    exists c. unfold isChipFile, chipNameOf, ext. rewrite Hd, He. now repeat split.
Qed.

(** X8: The order of two collections does not matter for the catalog. *)
Theorem collectChips_commute (w : World) (dir1 dir2 : string) (chips : gset string) :
  fst (collectChips w dir2 (fst (collectChips w dir1 chips)))
    = fst (collectChips w dir1 (fst (collectChips w dir2 chips))).
Proof. rewrite !collectChips_spec. cbn [fst]. set_solver. Qed.

Lemma length_append (a b : string) :
  String.length (a +:+ b) = (String.length a + String.length b)%nat.
Proof.
  induction a as [| c a IH]; [reflexivity |].
  rewrite append_cons. cbn [String.length]. now rewrite IH.
Qed.

Lemma substring_append_l (a b : string) :
  substring 0 (String.length a) (a +:+ b) = a.
Proof.
  induction a as [| c a IH]; [now destruct b |].
  rewrite append_cons. cbn [String.length substring]. now rewrite IH.
Qed.

(** The scan of [Ext] answers with a dot only where the reversed path has
    one, with no separator before it. *)
Lemma extScan_dot (r acc x : string) :
  filepath.extScan r acc = String filepath.dot x ->
  exists m q, r = m +:+ String filepath.dot q /\ x = strings.rev m +:+ acc.
Proof.
  revert acc. induction r as [| c r IH]; intros acc H; [discriminate H |].
  cbn [filepath.extScan] in H.
  destruct (Ascii.eqb c filepath.Separator); [discriminate H |].
  destruct (Ascii.eqb_spec c filepath.dot) as [-> | Hdot].
  - injection H as <-. now exists EmptyString, r.
  - destruct (IH _ H) as (m & q & -> & ->).
    exists (String c m), q. split; [reflexivity |].
    cbn [strings.rev]. now rewrite append_assoc.
Qed.

(** X9: Catalog names and file names go together: the name [collectChips]
    adds for a file, with [.hdl] put back as [OnDefinition] does to build
    [fileName], is the base name of that file. *)
Theorem chip_name_of_file (c : WalkCall) :
  isChipFile c = true ->
  chipNameOf c +:+ ext = filepath.Base (walk_path c).
Proof.
  unfold isChipFile, chipNameOf. intros H. apply andb_true_iff in H as [_ H].
  apply String.eqb_eq in H. set (path := walk_path c) in *. clearbody path.
  unfold filepath.Ext in H. change ext with (String filepath.dot "hdl") in H.
  apply extScan_dot in H as (m & q & Hrev & Hm).
  rewrite append_nil_r in Hm.
  assert (Em : m = "ldh").
  { rewrite <- (rev_involutive m), <- Hm. reflexivity. }
  subst m.
  assert (Hpath : path = strings.rev q +:+ ".hdl").
  { rewrite <- (rev_involutive path), Hrev.
    change ("ldh" +:+ String filepath.dot q) with ("ldh." +:+ q).
    now rewrite rev_app. }
  unfold filepath.Base.
  destruct path as [| p0 path']; [destruct (strings.rev q); discriminate Hpath |].
  cbn [String.eqb]. rewrite Hrev.
  replace ("ldh" +:+ String filepath.dot q) with ("ldh." +:+ q) by reflexivity.
  replace (filepath.dropSeparators ("ldh." +:+ q)) with ("ldh." +:+ q) by reflexivity.
  replace (filepath.takeToSeparator ("ldh." +:+ q))
    with ("ldh." +:+ filepath.takeToSeparator q) by reflexivity.
  set (tq := filepath.takeToSeparator q).
  assert (Hb : strings.rev ("ldh." +:+ tq) = strings.rev tq +:+ ".hdl")
    by now rewrite rev_app.
  rewrite Hb.
  assert (Hne : String.eqb (strings.rev tq +:+ ".hdl") EmptyString = false).
  { destruct (strings.rev tq); reflexivity. }
  rewrite Hne.
  unfold strings.TrimSuffix, strings.HasSuffix.
  rewrite <- Hb, rev_involutive.
  replace (String.prefix (strings.rev ext) ("ldh." +:+ tq)) with true
    by (symmetry; apply String.prefix_correct, (substring_append_l "ldh." tq)).
  rewrite Hb, length_append.
  replace (String.length (strings.rev tq) + String.length ".hdl" - String.length ext)%nat
    with (String.length (strings.rev tq)) by (cbn; lia).
  now rewrite substring_append_l.
Qed.

Lemma chip_name_of_file_witness :
  "Not" +:+ ext = filepath.Base "/proj/projects/01/Not.hdl".
Proof.
  apply (chip_name_of_file (Example.entry "/proj/projects/01/Not.hdl" false)).
  reflexivity.
Defined.

(** ** The server *)

(** X11: [publishDiagnostics] leaves the catalog and the open files alone.  When
    it returns nil it has handed over exactly one notification, with the
    URI and version it was given and the diagnostics of the visits of the
    tree in pre-order; in every other case (panic of the walk, error of the
    encoder or of the transport) the server is as it was. *)
Theorem publishDiagnostics_effect
    (w : World) (source uri : string) (version : Z) (s : Server) :
  let r := publishDiagnostics w source uri version s in
  implementedChips (fst r) = implementedChips s /\
  openFiles (fst r) = openFiles s /\
  match snd r with
  | Done _ =>
      exists st,
        foldNodes (visit (implementedChips s) source) (preorder (Parse w source))
                  {| implementingChipName := EmptyString; diagnostics := [] |} = Done st /\
        sent (fst r) =
          sent s ++ [ {| Uri := uri; Version := version; Diagnostics := diagnostics st |} ]
  | _ => fst r = s
  end.
Proof.
  unfold publishDiagnostics. rewrite walk_preorder.
  destruct (foldNodes _ _ _) as [st | err |]; cbn; [| now repeat split..].
  destruct (Marshal w _); cbn; [now repeat split |].
  destruct (SendNotification w _); cbn; [now repeat split |].
  repeat split. now exists st.
Qed.

Lemma publishDiagnostics_sent (w : World) (source uri : string) (version : Z) (s : Server) :
  let r := publishDiagnostics w source uri version s in
  openFiles (fst r) = openFiles s /\
  exists now,
    sent (fst r) = sent s ++ now /\
    Forall (fun p => Uri p = uri /\ Version p = version) now /\
    List.length now = (if snd r is Done _ then 1 else 0)%nat.
Proof.
  unfold publishDiagnostics.
  destruct (walk _ _ _ _) as [st | err |]; cbn;
    [| split; [reflexivity | exists []; now rewrite app_nil_r]..].
  destruct (Marshal w _); cbn;
    [split; [reflexivity | exists []; now rewrite app_nil_r] |].
  destruct (SendNotification w _); cbn;
    [split; [reflexivity | exists []; now rewrite app_nil_r] |].
  split; [reflexivity |]. eexists. split; [reflexivity |].
  split; [| reflexivity]. now repeat constructor.
Qed.


Lemma publishDiagnostics_world (w1 w2 : World) (source uri : string) (version : Z) (s : Server) :
  (forall x, Parse w1 x = Parse w2 x) ->
  (forall p, Marshal w1 p = Marshal w2 p) ->
  (forall p, SendNotification w1 p = SendNotification w2 p) ->
  publishDiagnostics w1 source uri version s = publishDiagnostics w2 source uri version s.
Proof.
  intros HP HM HS. unfold publishDiagnostics. rewrite HP.
  destruct (walk _ _ _ _); [| reflexivity..]. now rewrite HM, HS.
Qed.

(** X13: A change notification never looks at the disk: with the same parser
    and transport, whatever the files, directories and their contents are,
    it does the same.  A chip file created since the document was opened is
    therefore still reported as undefined. *)
Theorem OnDidChangeTextDocument_ignores_disk
    (w1 w2 : World) (req : DidChangeTextDocumentParams) (s : Server) :
  (forall x, Parse w1 x = Parse w2 x) ->
  (forall p, Marshal w1 p = Marshal w2 p) ->
  (forall p, SendNotification w1 p = SendNotification w2 p) ->
  OnDidChangeTextDocument w1 req s = OnDidChangeTextDocument w2 req s.
Proof.
  intros HP HM HS. unfold OnDidChangeTextDocument.
  generalize (change_Uri req) (change_Version req). intros uri version.
  revert s. induction (ContentChanges req) as [| c rest IH]; intros s; [reflexivity |].
  cbn [publishChanges]. destruct c as [text |]; [| reflexivity].
  rewrite (publishDiagnostics_world w1 w2) by assumption.
  destruct (publishDiagnostics w2 text uri version s) as [s' [[] | err |]];
    [apply IH | reflexivity..].
Qed.

(** The project with every file and directory gone: a change of the
    document is handled as before. *)
Lemma OnDidChangeTextDocument_ignores_disk_witness :
  let req := {| change_Uri := Example.docUri; change_Version := 2;
                ContentChanges := [AnyString Example.docSource] |} in
  OnDidChangeTextDocument Example.world req Example.server0 =
  OnDidChangeTextDocument
    {| Parse := Example.parse;
       Stat := fun _ => Some ErrNotExist;
       ReadFile := fun _ => inr ErrNotExist;
       WalkDir := fun dir => [ {| walk_path := dir; walk_isDir := false;
                                  walk_err := Some ErrNotExist |} ];
       Marshal := fun _ => None;
       SendNotification := fun _ => None |}
    req Example.server0.
Proof.
  intros req. apply OnDidChangeTextDocument_ignores_disk; reflexivity.
Defined.

(** X10: Opening a document stores its text under its URI, whatever happens
    next, and touches no other open file; when both walks succeed the
    catalog is the old one with the names of both walks, and the outcome is
    that of [publishDiagnostics] against that catalog. *)
Theorem OnDidOpenTextDocument_records
    (w : World) (req : DidOpenTextDocumentParams) (s : Server) :
  let r := OnDidOpenTextDocument w req s in
  let builtIn := WalkDir w (builtInChipsDir (open_Uri req)) in
  let own := WalkDir w (baseDir (open_Uri req)) in
  openFiles (fst r) !! open_Uri req = Some (open_Text req) /\
  (forall uri, uri <> open_Uri req -> openFiles (fst r) !! uri = openFiles s !! uri) /\
  (firstWalkError builtIn = None -> firstWalkError own = None ->
   implementedChips (fst r) = walkNames own ∪ (walkNames builtIn ∪ implementedChips s) /\
   r = publishDiagnostics w (open_Text req) (open_Uri req) (open_Version req)
         {| implementedChips := walkNames own ∪ (walkNames builtIn ∪ implementedChips s);
            openFiles := <[open_Uri req := open_Text req]> (openFiles s);
            sent := sent s |}).
Proof.
  cbn zeta. unfold OnDidOpenTextDocument. rewrite collectChips_spec.
  destruct (firstWalkError (WalkDir w (builtInChipsDir (open_Uri req)))) as [e1 |];
    cbn [fmap option_fmap option_map fst openFiles].
  { split; [apply lookup_insert_eq |]. split; [| discriminate].
    intros uri Hne. now apply lookup_insert_ne. }
  rewrite collectChips_spec.
  destruct (firstWalkError (WalkDir w (baseDir (open_Uri req)))) as [e2 |];
    cbn [fmap option_fmap option_map fst openFiles].
  { split; [apply lookup_insert_eq |]. split; [| discriminate].
    intros uri Hne. now apply lookup_insert_ne. }
  set (s1 := {| implementedChips :=
                  walkNames (WalkDir w (baseDir (open_Uri req)))
                  ∪ (walkNames (WalkDir w (builtInChipsDir (open_Uri req)))
                     ∪ implementedChips s);
                openFiles := <[open_Uri req := open_Text req]> (openFiles s);
                sent := sent s |}).
  pose proof (publishDiagnostics_catalog w (open_Text req) (open_Uri req)
                (open_Version req) s1) as Hc.
  pose proof (publishDiagnostics_sent w (open_Text req) (open_Uri req)
                (open_Version req) s1) as [Hf _].
  rewrite Hf. cbn [openFiles s1].
  split; [apply lookup_insert_eq |]. split.
  - intros uri Hne. now apply lookup_insert_ne.
  - intros _ _. split; [exact Hc | reflexivity].
Qed.

Lemma OnDidOpenTextDocument_records_witness :
  implementedChips
    (fst (OnDidOpenTextDocument Example.world
            (mkDidOpen Example.docUri Example.docSource 1) Example.server0))
    = {[ "And"; "Not"; "Xor" ]}.
Proof.
  destruct (OnDidOpenTextDocument_records Example.world
              (mkDidOpen Example.docUri Example.docSource 1) Example.server0)
    as (_ & _ & H).
  destruct H as [Hc _]; [reflexivity | reflexivity |].
  rewrite Hc. vm_compute. reflexivity.
Defined.


(** ** The diagnostic walk *)

Lemma slice_ok (s : string) (lo hi : Z) :
  0 <= lo <= hi -> hi <= len s -> exists t, slice s lo hi = Done t.
Proof.
  intros H1 H2. unfold slice.
  destruct (Z.ltb_spec lo 0); [lia |]. destruct (Z.ltb_spec hi lo); [lia |].
  destruct (Z.ltb_spec (len s) hi); [lia |]. cbn. now eexists.
Qed.

Lemma slice_not_Fail (s : string) (lo hi : Z) (e : error) : slice s lo hi <> Fail e.
Proof. unfold slice. now destruct (_ || _). Qed.

Lemma childReadable_range (source : string) (c : Node) :
  childReadable source c = true ->
  exists t, slice source (StartByte c) (EndByte c) = Done t.
Proof.
  unfold childReadable. intros H.
  apply andb_true_iff in H as [H _]. apply andb_true_iff in H as [H H3].
  apply andb_true_iff in H as [H1 H2].
  apply slice_ok; lia.
Qed.

Lemma ChildByFieldName_child (n : Node) (field : string) (c : Node) :
  ChildByFieldName n field = Some c -> In c (Children n).
Proof. unfold ChildByFieldName. intros H. now apply find_some in H. Qed.

(** What a visit does to the diagnostics: it appends at most three of
    them, and none unless the node is a part. *)
Lemma visit_appends (chips : gset string) (source : string) (n : Node) (st st' : walkState) :
  visit chips source n st = Done st' ->
  exists ds,
    diagnostics st' = diagnostics st ++ ds /\
    (List.length ds <= if isPart n then 3 else 0)%nat.
Proof.
  unfold visit, isPart.
  destruct (String.eqb (strings.TrimSpace (Kind n)) nodeKindChipDefinition) eqn:Ed.
  { apply String.eqb_eq in Ed. rewrite Ed.
    change (String.eqb nodeKindChipDefinition nodeKindPart) with false.
    unfold visitChipDefinition.
    destruct (ChildByFieldName n "name") as [name |].
    - destruct (slice source _ _) as [t | |]; cbn; [| discriminate..].
      intros [= <-]. exists []. cbn. now rewrite app_nil_r.
    - intros [= <-]. exists []. cbn. now rewrite app_nil_r. }
  destruct (String.eqb (strings.TrimSpace (Kind n)) nodeKindPart);
    [| intros [= <-]; exists []; cbn; now rewrite app_nil_r].
  unfold visitPart, checkChipName.
  assert (Hscan : forall ds0 (name : string),
            (ds ← scanChildren source (Children n) (diagnostics st ++ ds0);
             Done {| implementingChipName := name; diagnostics := ds |}) = Done st' ->
            (List.length ds0 <= 2)%nat ->
            exists ds, diagnostics st' = diagnostics st ++ ds /\ (List.length ds <= 3)%nat).
  { intros ds0 name H Hlen.
    destruct (scanChildren source (Children n) (diagnostics st ++ ds0)) as [ds | |] eqn:Es;
      cbn in H; [| discriminate..].
    injection H as <-. cbn [diagnostics].
    apply scanChildren_at_most_one in Es as [-> | [second ->]].
    - exists ds0. split; [reflexivity | lia].
    - exists (ds0 ++ [diagnosticAt second msgSemicolon]).
      rewrite app_assoc, length_app. cbn [List.length]. split; [reflexivity | lia]. }
  destruct (ChildByFieldName n "chip_name") as [name |].
  - destruct (slice source _ _) as [chipName | |]; cbn [mbind outcome_bind];
      [| discriminate..].
    rewrite !newDiagnostic_Some.
    destruct (String.eqb chipName (implementingChipName st));
      destruct (bool_decide (chipName ∈ chips)); cbn [mbind outcome_bind diagnostics implementingChipName];
      intros H.
    + rewrite <- (app_nil_r (diagnostics st ++ _)), <- app_assoc in H.
      cbn [app] in H.
      apply (Hscan _ _ H). cbn. lia.
    + rewrite <- app_assoc in H. apply (Hscan _ _ H). cbn. lia.
    + rewrite <- (app_nil_r (diagnostics st)) in H.
      apply (Hscan _ _ H). cbn. lia.
    + apply (Hscan _ _ H). cbn. lia.
  - cbn [mbind outcome_bind]. intros H.
    rewrite <- (app_nil_r (diagnostics st)) in H.
    apply (Hscan _ _ H). cbn. lia.
Qed.

(** X14: The diagnostics of a walk that returns are those it started with,
    followed by at most three for each part it visited: the walk never
    drops or reorders what was reported, and a tree without parts adds
    nothing. *)
Theorem walk_appends_diagnostics
    (chips : gset string) (source : string) (n : Node) (st st' : walkState) :
  walk chips source n st = Done st' ->
  exists ds,
    diagnostics st' = diagnostics st ++ ds /\
    (List.length ds <= 3 * List.length (List.filter isPart (preorder n)))%nat.
Proof.
  rewrite walk_preorder. generalize (preorder n). intros l. revert st.
  induction l as [| m l IH]; intros st H.
  - injection H as <-. exists []. cbn. now rewrite app_nil_r.
  - cbn [foldNodes] in H.
    destruct (visit chips source m st) as [st1 | |] eqn:Ev; cbn in H; [| discriminate..].
    apply visit_appends in Ev as (ds1 & E1 & L1).
    apply IH in H as (ds2 & E2 & L2).
    exists (ds1 ++ ds2). rewrite E2, E1, <- app_assoc. split; [reflexivity |].
    rewrite length_app. cbn [List.filter].
    destruct (isPart m); cbn [List.length]; lia.
Qed.

Lemma walk_appends_diagnostics_witness :
  exists ds,
    [] ++ [diagnosticAt Example.docChipName (msgUndefined "Not")] = [] ++ ds /\
    (List.length ds <= 3 * List.length (List.filter isPart (preorder Example.docTree)))%nat.
Proof.
  apply (walk_appends_diagnostics ∅ Example.docSource Example.docTree
           {| implementingChipName := EmptyString; diagnostics := [] |}
           {| implementingChipName := "Xor";
              diagnostics := [diagnosticAt Example.docChipName (msgUndefined "Not")] |}).
  vm_compute. reflexivity.
Defined.

Lemma scanChildren_not_Fail (source : string) (children : list Node) (ds : list Diagnostic)
    (e : error) :
  scanChildren source children ds <> Fail e.
Proof.
  rewrite scanChildren_first_error.
  destruct (List.find IsError children) as [child |]; [| discriminate].
  pose proof (slice_not_Fail source (StartByte child) (EndByte child)) as Hs.
  destruct (slice source _ _) as [t | e' |]; cbn [mbind outcome_bind];
    [| now specialize (Hs e') | discriminate].
  destruct (strings.HasPrefix _ _); [| discriminate].
  now destruct (Child child 1).
Qed.

(** What a visit does to the name of the chip being defined. *)
Lemma visit_name (chips : gset string) (source : string) (n : Node) (st st' : walkState) :
  visit chips source n st = Done st' ->
  match definitionName n with
  | Some name => slice source (StartByte name) (EndByte name) = Done (implementingChipName st')
  | None => implementingChipName st' = implementingChipName st
  end.
Proof.
  unfold visit, definitionName.
  destruct (String.eqb (strings.TrimSpace (Kind n)) nodeKindChipDefinition).
  - unfold visitChipDefinition. destruct (ChildByFieldName n "name") as [name |].
    + destruct (slice source _ _) as [t | |]; cbn; [| discriminate..]. now intros [= <-].
    + now intros [= <-].
  - destruct (String.eqb (strings.TrimSpace (Kind n)) nodeKindPart); [| now intros [= <-]].
    unfold visitPart.
    destruct (checkChipName chips source n st) as [st1 | |] eqn:Ec;
      cbn [mbind outcome_bind]; [| discriminate..].
    destruct (scanChildren _ _ _) as [ds | |]; cbn; [| discriminate..].
    intros [= <-]. cbn.
    unfold checkChipName in Ec. destruct (ChildByFieldName n "chip_name") as [name |].
    + destruct (slice source _ _) as [chipName | |]; cbn [mbind outcome_bind] in Ec;
        [| discriminate..].
      rewrite !newDiagnostic_Some in Ec.
      destruct (String.eqb chipName _), (bool_decide _); cbn in Ec; now injection Ec as <-.
    + now injection Ec as <-.
Qed.

(** X15: Throughout a walk the name of the chip being defined is the text of
    the name of the last definition node visited so far: at the end it is
    the text of the name of the last definition node of the tree, in
    pre-order, and the name the walk started with when the tree has
    none. *)
Theorem walk_tracks_last_definition
    (chips : gset string) (source : string) (n : Node) (st st' : walkState) :
  walk chips source n st = Done st' ->
  match lastDefinitionName (preorder n) with
  | Some name => slice source (StartByte name) (EndByte name) = Done (implementingChipName st')
  | None => implementingChipName st' = implementingChipName st
  end.
Proof.
  rewrite walk_preorder. generalize (preorder n). intros l. revert st.
  induction l as [| m l IH]; intros st H.
  - now injection H as <-.
  - cbn [foldNodes] in H.
    destruct (visit chips source m st) as [st1 | |] eqn:Ev; cbn in H; [| discriminate..].
    apply visit_name in Ev. apply IH in H. cbn [lastDefinitionName].
    destruct (lastDefinitionName l); [exact H |].
    destruct (definitionName m); congruence.
Qed.

Lemma walk_tracks_last_definition_witness :
  slice Example.docSource (StartByte Example.docName) (EndByte Example.docName) = Done "Xor".
Proof.
  apply (walk_tracks_last_definition ∅ Example.docSource Example.docTree
           {| implementingChipName := EmptyString; diagnostics := [] |}
           {| implementingChipName := "Xor";
              diagnostics := [diagnosticAt Example.docChipName (msgUndefined "Not")] |}).
  vm_compute. reflexivity.
Defined.

Lemma visit_completes (chips : gset string) (source : string) (n : Node) (st : walkState) :
  forallb (childReadable source) (Children n) = true ->
  exists st', visit chips source n st = Done st'.
Proof.
  intros Hall. rewrite forallb_forall in Hall. unfold visit.
  destruct (String.eqb (strings.TrimSpace (Kind n)) nodeKindChipDefinition).
  { unfold visitChipDefinition.
    destruct (ChildByFieldName n "name") as [name |] eqn:En; [| now eexists].
    apply ChildByFieldName_child, Hall, childReadable_range in En as [t ->].
    cbn. now eexists. }
  destruct (String.eqb (strings.TrimSpace (Kind n)) nodeKindPart); [| now eexists].
  unfold visitPart.
  assert (Hcheck : exists st1, checkChipName chips source n st = Done st1).
  { unfold checkChipName.
    destruct (ChildByFieldName n "chip_name") as [name |] eqn:En; [| now eexists].
    apply ChildByFieldName_child, Hall, childReadable_range in En as [t ->].
    cbn [mbind outcome_bind]. rewrite !newDiagnostic_Some.
    destruct (String.eqb t _), (bool_decide _); cbn; now eexists. }
  destruct Hcheck as [st1 ->]. cbn [mbind outcome_bind].
  rewrite scanChildren_first_error.
  destruct (List.find IsError (Children n)) as [child |] eqn:Ef; [| cbn; now eexists].
  apply find_some in Ef as [Hin Herr].
  pose proof (Hall child Hin) as Hc.
  destruct (childReadable_range source child Hc) as [t ->]. cbn [mbind outcome_bind].
  destruct (strings.HasPrefix _ _); [| cbn; now eexists].
  unfold childReadable in Hc. apply andb_true_iff in Hc as [_ Hc].
  rewrite Herr in Hc. cbn [negb orb] in Hc.
  destruct (Child child 1); [cbn; now eexists | discriminate].
Qed.

Lemma visit_not_Fail (chips : gset string) (source : string) (n : Node) (st : walkState)
    (e : error) :
  visit chips source n st <> Fail e.
Proof.
  unfold visit.
  destruct (String.eqb _ nodeKindChipDefinition).
  { unfold visitChipDefinition. destruct (ChildByFieldName n "name"); [| discriminate].
    pose proof (slice_not_Fail source (StartByte n0) (EndByte n0)) as Hs.
    destruct (slice source _ _) as [t | e' |]; cbn;
      [discriminate | now specialize (Hs e') | discriminate]. }
  destruct (String.eqb _ nodeKindPart); [| discriminate].
  unfold visitPart.
  assert (Hc : checkChipName chips source n st <> Fail e).
  { unfold checkChipName. destruct (ChildByFieldName n "chip_name"); [| discriminate].
    pose proof (slice_not_Fail source (StartByte n0) (EndByte n0)) as Hs.
    destruct (slice source _ _) as [t | e' |]; cbn [mbind outcome_bind];
      [| now specialize (Hs e') | discriminate].
    rewrite !newDiagnostic_Some.
    destruct (String.eqb t _), (bool_decide _); discriminate. }
  destruct (checkChipName chips source n st) as [st1 | e' |]; cbn [mbind outcome_bind];
    [| congruence | discriminate].
  pose proof (scanChildren_not_Fail source (Children n) (diagnostics st1)) as Hs.
  destruct (scanChildren _ _ _) as [ds | e' |]; cbn;
    [discriminate | now specialize (Hs e') | discriminate].
Qed.

(** X16: The walk never returns an error: it returns or it panics.  On a tree
    whose nodes lie within the source and whose error nodes have a second
    child, it returns. *)
Theorem walk_completes (chips : gset string) (source : string) (n : Node) (st : walkState) :
  (forall e, walk chips source n st <> Fail e) /\
  (readable source n = true -> exists st', walk chips source n st = Done st').
Proof.
  rewrite walk_preorder. unfold readable. generalize (preorder n). intros l. split.
  - intros e. revert st. induction l as [| m l IH]; intros st; [discriminate |].
    cbn [foldNodes]. pose proof (visit_not_Fail chips source m st) as Hv.
    destruct (visit chips source m st) as [st1 | e' |]; cbn;
      [apply IH | intros [= ->]; now specialize (Hv e) | discriminate].
  - revert st. induction l as [| m l IH]; intros st Hall; [now eexists |].
    cbn [forallb] in Hall. apply andb_true_iff in Hall as [Hm Hl].
    cbn [foldNodes]. destruct (visit_completes chips source m st Hm) as [st1 ->].
    cbn. now apply IH.
Qed.

Lemma walk_completes_witness :
  exists st',
    walk ∅ Example.docSource Example.docTree
         {| implementingChipName := EmptyString; diagnostics := [] |} = Done st'.
Proof.
  apply (walk_completes ∅ Example.docSource Example.docTree
           {| implementingChipName := EmptyString; diagnostics := [] |}).
  vm_compute. reflexivity.
Defined.

(** X17: The loop over the children of a part is decided by the first error
    child: the children after it are never looked at. *)
Theorem scanChildren_stops_at_first_error
    (source : string) (before after : list Node) (child : Node) (ds : list Diagnostic) :
  forallb (fun c => negb (IsError c)) before = true ->
  IsError child = true ->
  scanChildren source (before ++ child :: after) ds = scanChildren source [child] ds.
Proof.
  intros Hb He. induction before as [| c before IH].
  - cbn [app scanChildren]. now rewrite He.
  - cbn [forallb] in Hb. apply andb_true_iff in Hb as [Hc Hb].
    apply negb_true_iff in Hc. cbn [app scanChildren]. rewrite Hc. now apply IH.
Qed.

Lemma scanChildren_stops_at_first_error_witness :
  scanChildren Example.straySource (Children Example.strayPart) []
    = scanChildren Example.straySource [Example.strayError] [].
Proof.
  apply (scanChildren_stops_at_first_error Example.straySource Example.partHead);
    reflexivity.
Defined.

Lemma checkChipName_not_Fail (chips : gset string) (source : string) (n : Node)
    (st : walkState) (e : error) :
  checkChipName chips source n st <> Fail e.
Proof.
  unfold checkChipName. destruct (ChildByFieldName n "chip_name") as [name |];
    [| discriminate].
  pose proof (slice_not_Fail source (StartByte name) (EndByte name)) as Hs.
  destruct (slice source _ _) as [t | e' |]; cbn [mbind outcome_bind];
    [| now specialize (Hs e') | discriminate].
  rewrite !newDiagnostic_Some.
  destruct (String.eqb t _), (bool_decide _); discriminate.
Qed.

(** A node whose visit panics in every state makes the walk of any tree
    that reaches it panic. *)
Lemma foldNodes_visit_panics (chips : gset string) (source : string) (n : Node)
    (l : list Node) (st : walkState) :
  (forall st', visit chips source n st' = Panic) ->
  In n l ->
  foldNodes (visit chips source) l st = Panic.
Proof.
  intros Hn. revert st. induction l as [| m l IH]; intros st Hin; [destruct Hin |].
  cbn [foldNodes]. destruct Hin as [-> | Hin]; [now rewrite Hn |].
  pose proof (visit_not_Fail chips source m st) as Hf.
  destruct (visit chips source m st) as [st1 | e |]; cbn;
    [now apply IH | now specialize (Hf e) | reflexivity].
Qed.

(** C5 where the first error child of a part has no second child, as for
    a stray closing parenthesis that the parser wraps alone in an error
    node: the trimmed text of the error child begins with the parenthesis,
    so the rule applies, but [child.Child(1)] is nil and [newDiagnostic]
    dereferences it.  The visit of the part panics in every state; the
    analysis of a document whose walk reaches such a part panics, and no
    diagnostic is handed over, not even those of the other rules. *)
Theorem visit_part_error_single_child
    (source : string) (n child : Node) (text : string) :
  strings.TrimSpace (Kind n) = nodeKindPart ->
  List.find IsError (Children n) = Some child ->
  slice source (StartByte child) (EndByte child) = Done text ->
  strings.HasPrefix (strings.TrimSpace text) ")" = true ->
  Child child 1 = None ->
  (forall (chips : gset string) (st : walkState), visit chips source n st = Panic) /\
  (forall (w : World) (uri : string) (version : Z) (s : Server),
     In n (preorder (Parse w source)) ->
     publishDiagnostics w source uri version s = (s, Panic)).
Proof.
  intros Hkind Hfind Htext Hprefix Hsecond.
  assert (Hvisit : forall chips st, visit chips source n st = Panic).
  { intros chips st. unfold visit. rewrite Hkind.
    change (String.eqb nodeKindPart nodeKindChipDefinition) with false.
    change (String.eqb nodeKindPart nodeKindPart) with true. cbn iota.
    unfold visitPart.
    pose proof (checkChipName_not_Fail chips source n st) as Hc.
    destruct (checkChipName chips source n st) as [st1 | e |]; cbn [mbind outcome_bind];
      [| now specialize (Hc e) | reflexivity].
    rewrite scanChildren_first_error, Hfind, Htext. cbn [mbind outcome_bind].
    now rewrite Hprefix, Hsecond. }
  split; [exact Hvisit |].
  intros w uri version s Hin. unfold publishDiagnostics.
  rewrite walk_preorder, (foldNodes_visit_panics _ _ n) by (auto || exact Hin).
  reflexivity.
Qed.

(** The document with the part [Not(in=a, out=nota));]: opening or
    changing it ends in the panic, and nothing is published. *)
Lemma visit_part_error_single_child_witness :
  visit {[ "Not" ]} Example.straySource Example.strayPart
        {| implementingChipName := "Xor"; diagnostics := [] |} = Panic /\
  publishDiagnostics Example.world Example.straySource Example.docUri 1 Example.server0
    = (Example.server0, Panic).
Proof.
  destruct (visit_part_error_single_child Example.straySource Example.strayPart
              Example.strayError ")") as [Hvisit Hpublish]; try reflexivity.
  split; [apply Hvisit |].
  apply Hpublish. vm_compute. tauto.
Defined.

(** ** Definition requests *)

(** The cursor on the name [Xor] of the chip being defined: the parent is
    the definition, not a part, and the answer is empty. *)
Lemma OnDefinition_not_on_part_witness :
  OnDefinition Example.world
    {| def_Uri := Example.docUri; def_Position := {| Line := 0; Character := 6 |} |}
    Example.server0 = Done None.
Proof.
  apply (OnDefinition_not_on_part Example.world
           {| def_Uri := Example.docUri; def_Position := {| Line := 0; Character := 6 |} |}
           Example.server0 Example.docSource 6 eq_refl eq_refl Example.docChip).
  - vm_compute. reflexivity.
  - left. vm_compute. discriminate.
Defined.

Lemma OnDefinition_location_witness :
  exists source loc,
    readFile Example.world Example.docUri = Done source /\
    [ {| TargetUri := "file:///proj/projects/01/Not.hdl";
         TargetRange := spanOf Example.docName;
         TargetSelectionRange := spanOf Example.docName |} ] = [loc] /\
    TargetRange loc = TargetSelectionRange loc /\
    TargetRange loc =
      match lastDefinitionName (preorder (Parse Example.world source)) with
      | Some name => spanOf name
      | None => targetRangeOf (zeroPoint, zeroPoint)
      end.
Proof.
  apply (OnDefinition_location Example.world Example.request Example.server0).
  vm_compute. reflexivity.
Defined.

(** X20: The errors of reading are returned as they are: the one of reading the
    document, and, on a part, the one of reading the file chosen as the
    target, as when no file of that name is in either directory. *)
Theorem OnDefinition_read_errors
    (w : World) (req : DefinitionParams) (s : Server) (err : error) :
  (readFile w (def_Uri req) = Fail err -> OnDefinition w req s = Fail err) /\
  (forall (source : string) (offset : Z) (node name : Node) (chipName : string),
     readFile w (def_Uri req) = Done source ->
     getByteOffset source (int_of_uint (Line (def_Position req)))
                          (int_of_uint (Character (def_Position req))) = Done offset ->
     DescendantParent (Parse w source) (uint_of_int offset) (uint_of_int offset) = Some node ->
     strings.TrimSuffix (Kind node) nl = nodeKindPart ->
     ChildByFieldName node "chip_name" = Some name ->
     slice source (StartByte name) (EndByte name) = Done chipName ->
     readFile w (targetUriFor w (def_Uri req) (chipName +:+ ext)) = Fail err ->
     OnDefinition w req s = Fail err).
Proof.
  split.
  - intros H. unfold OnDefinition. now rewrite H.
  - intros source offset node name chipName Hread Hoffset Hp Hk Hname Htext Htarget.
    rewrite (OnDefinition_on_part w req s source offset Hread Hoffset
               node name chipName Hp Hk Hname Htext).
    cbn zeta. now rewrite Htarget.
Qed.

(** A request for a document that is not on disk; and the request on the
    part [Not] when the document is the only file there is. *)
Lemma OnDefinition_read_errors_witness :
  OnDefinition Example.world
    {| def_Uri := "file:///nowhere/Xor.hdl"; def_Position := {| Line := 0; Character := 0 |} |}
    Example.server0 = Fail ErrNotExist /\
  OnDefinition
    {| Parse := Example.parse;
       Stat := fun _ => Some ErrNotExist;
       ReadFile := fun path =>
         if String.eqb (filepath.Clean path) "/proj/projects/01/Xor.hdl"
         then inl Example.docSource else inr ErrNotExist;
       WalkDir := fun _ => [];
       Marshal := fun _ => None;
       SendNotification := fun _ => None |}
    Example.request Example.server0 = Fail ErrNotExist.
Proof.
  split.
  - apply OnDefinition_read_errors. reflexivity.
  - apply OnDefinition_read_errors
      with (source := Example.docSource) (offset := 53)
           (node := Example.docPart) (name := Example.docChipName) (chipName := "Not");
      reflexivity.
Defined.

(** ** The first version *)

Lemma Previous_walk_preorder (chips : gset string) (source : string) (n : Node)
    (st : walkState) :
  Previous.walk chips source n st
    = foldNodes (Previous.visit chips source) (preorder n) st.
Proof.
  revert st. induction n as [n IHn] using Node_children_ind. intros st.
  destruct n as [k nm er f sb eb sp ep cs]. cbn [Children] in IHn.
  cbn [Previous.walk preorder foldNodes].
  destruct (Previous.visit chips source _ st) as [st1 | err |]; cbn; [| reflexivity..].
  clear st. revert st1.
  induction IHn as [| c cs Hc _ IHcs]; intros st; [reflexivity |].
  destruct (IsNamed c); [| apply IHcs].
  rewrite foldNodes_app, <- Hc.
  destruct (Previous.walk chips source c st) as [st' | err |]; cbn;
    [apply IHcs | reflexivity..].
Qed.

(** X21: The two versions of the walk differ by the rule on error nodes only:
    on a tree in which no part that is visited has an error node among
    its children, they do the same. *)
Theorem walk_agrees_with_previous
    (chips : gset string) (source : string) (n : Node) (st : walkState) :
  forallb (fun m => negb (isPart m) || forallb (fun c => negb (IsError c)) (Children m))
          (preorder n) = true ->
  walk chips source n st = Previous.walk chips source n st.
Proof.
  rewrite walk_preorder, Previous_walk_preorder. generalize (preorder n). intros l.
  revert st. induction l as [| m l IH]; intros st Hall; [reflexivity |].
  cbn [forallb] in Hall. apply andb_true_iff in Hall as [Hm Hl].
  cbn [foldNodes].
  assert (Hv : visit chips source m st = Previous.visit chips source m st).
  { unfold visit, Previous.visit, isPart in *.
    change "chip_definition" with nodeKindChipDefinition.
    change "part" with nodeKindPart.
    destruct (String.eqb _ nodeKindChipDefinition); [reflexivity |].
    destruct (String.eqb _ nodeKindPart); [| reflexivity].
    cbn [negb orb] in Hm. unfold visitPart.
    destruct (checkChipName chips source m st) as [st1 | |]; cbn [mbind outcome_bind];
      [| reflexivity..].
    rewrite scanChildren_first_error.
    destruct (List.find IsError (Children m)) as [child |] eqn:Ef.
    - apply find_some in Ef as [Hin Herr].
      rewrite forallb_forall in Hm. specialize (Hm child Hin).
      rewrite Herr in Hm. discriminate Hm.
    - cbn. now destruct st1. }
  rewrite Hv. destruct (Previous.visit chips source m st); cbn; [now apply IH | reflexivity..].
Qed.

Lemma walk_agrees_with_previous_witness :
  walk ∅ Example.docSource Example.docTree
       {| implementingChipName := EmptyString; diagnostics := [] |}
  = Previous.walk ∅ Example.docSource Example.docTree
       {| implementingChipName := EmptyString; diagnostics := [] |}.
Proof. apply walk_agrees_with_previous. vm_compute. reflexivity. Defined.

(** X22: The definition handler compared with its first version.  One
    returns no location without an error exactly when the other does, and
    one panics exactly when the other does; an error of the first version
    is the handler's error.  The first version returns a location exactly
    on a part with a chip name, for the file of the built-in directory and
    with zero ranges; there the handler returns a location for the file
    it chose when that file can be read, and the error of reading it
    otherwise, so that it may return an error where the first version
    returns a location.  The file chosen is the first version's when
    [os.Stat] reports the one of the document's directory missing. *)
Theorem OnDefinition_extends_previous
    (w : World) (req : DefinitionParams) (s : Server) :
  (Previous.OnDefinition w req s = Done None <-> OnDefinition w req s = Done None) /\
  (Previous.OnDefinition w req s = Panic <-> OnDefinition w req s = Panic) /\
  (forall err, Previous.OnDefinition w req s = Fail err -> OnDefinition w req s = Fail err) /\
  (forall links,
     Previous.OnDefinition w req s = Done (Some links) ->
     exists (source : string) (offset : Z) (node name : Node) (chipName : string),
       readFile w (def_Uri req) = Done source /\
       getByteOffset source (int_of_uint (Line (def_Position req)))
                            (int_of_uint (Character (def_Position req))) = Done offset /\
       DescendantParent (Parse w source) (uint_of_int offset) (uint_of_int offset)
         = Some node /\
       strings.TrimSuffix (Kind node) nl = nodeKindPart /\
       ChildByFieldName node "chip_name" = Some name /\
       slice source (StartByte name) (EndByte name) = Done chipName) /\
  (forall (source : string) (offset : Z) (node name : Node) (chipName : string),
     readFile w (def_Uri req) = Done source ->
     getByteOffset source (int_of_uint (Line (def_Position req)))
                          (int_of_uint (Character (def_Position req))) = Done offset ->
     DescendantParent (Parse w source) (uint_of_int offset) (uint_of_int offset) = Some node ->
     strings.TrimSuffix (Kind node) nl = nodeKindPart ->
     ChildByFieldName node "chip_name" = Some name ->
     slice source (StartByte name) (EndByte name) = Done chipName ->
     let builtIn := filepath.Join [builtInChipsDir (def_Uri req); chipName +:+ ext] in
     let target := targetUriFor w (def_Uri req) (chipName +:+ ext) in
     Previous.OnDefinition w req s
       = Done (Some [ {| TargetUri := "file://" +:+ builtIn;
                         TargetRange := Previous.zeroRange;
                         TargetSelectionRange := Previous.zeroRange |} ]) /\
     (forall targetSource,
        readFile w target = Done targetSource ->
        exists loc, OnDefinition w req s = Done (Some [loc]) /\
                    TargetUri loc = "file://" +:+ target) /\
     (forall err, readFile w target = Fail err -> OnDefinition w req s = Fail err) /\
     ((exists err, Stat w (filepath.Join [baseDir (def_Uri req); chipName +:+ ext])
                     = Some err /\ errors_Is_NotExist err = true) ->
      target = builtIn)).
Proof.
  unfold OnDefinition, Previous.OnDefinition.
  change "part" with nodeKindPart. change ".hdl" with ext.
  destruct (readFile w (def_Uri req)) as [source | e0 |] eqn:Eread; cbn [mbind outcome_bind];
    [| repeat split; try discriminate; congruence..].
  destruct (getByteOffset source _ _) as [offset | e0 |] eqn:Eoffset;
    cbn [mbind outcome_bind];
    [| repeat split; try discriminate; intros; congruence..].
  destruct (DescendantParent _ _ _) as [node |] eqn:Enode; cbn [orPanic mbind outcome_bind];
    [| repeat split; try discriminate; intros; congruence].
  destruct (String.eqb _ nodeKindPart) eqn:Ekind;
    [apply String.eqb_eq in Ekind | apply String.eqb_neq in Ekind;
       repeat split; try discriminate; intros; congruence].
  destruct (ChildByFieldName node "chip_name") as [name |] eqn:Ename;
    [| repeat split; try discriminate; intros; congruence].
  destruct (slice source _ _) as [chipName | e0 |] eqn:Etext; cbn [mbind outcome_bind];
    [| repeat split; try discriminate; intros; congruence..].
  split; [| split; [| split; [| split]]].
  - split; [discriminate |].
    destruct (readFile w (targetUriFor _ _ _)); cbn [mbind outcome_bind];
      intros H; discriminate H.
  - split; [discriminate |].
    unfold readFile at 1.
    destruct (ReadFile w (toFilePath (targetUriFor _ _ _))); cbn [mbind outcome_bind];
      intros H; discriminate H.
  - discriminate.
  - intros links _. exists source, offset, node, name, chipName.
    repeat (split; [first [reflexivity | assumption] |]). assumption.
  - intros source' offset' node' name' chipName' Hread Hoffset Hnode Hkind Hname Htext.
    injection Hread as <-. rewrite Eoffset in Hoffset. injection Hoffset as <-.
    rewrite Enode in Hnode. injection Hnode as <-.
    rewrite Ename in Hname. injection Hname as <-.
    rewrite Etext in Htext. injection Htext as <-.
    cbn zeta. split; [reflexivity |]. split; [| split].
    + intros targetSource Ht. rewrite Ht. cbn [mbind outcome_bind].
      eexists. split; reflexivity.
    + intros err Ht. now rewrite Ht.
    + intros (err & Hs & He). unfold targetUriFor. now rewrite Hs, He.
Qed.

(** The request on the part [Not] of the example document.  With
    [Not.hdl] in the built-in directory only, both versions name it.  With
    no [Not.hdl] anywhere, the first version still names the one of the
    built-in directory, and the handler returns the error of reading
    it. *)
Lemma OnDefinition_extends_previous_witness :
  let w := {| Parse := Example.parse;
              Stat := fun path =>
                if String.eqb (filepath.Clean path) "/proj/projects/01/Not.hdl"
                then Some ErrNotExist else None;
              ReadFile := fun path =>
                if String.eqb (filepath.Clean path) "/proj/projects/01/Xor.hdl"
                then inl Example.docSource
                else if String.eqb (filepath.Clean path) "/proj/tools/builtInChips/Not.hdl"
                then inl Example.notSource else inr ErrNotExist;
              WalkDir := fun _ => [];
              Marshal := fun _ => None;
              SendNotification := fun _ => None |} in
  let w' := {| Parse := Example.parse;
               Stat := fun _ => Some ErrNotExist;
               ReadFile := fun path =>
                 if String.eqb (filepath.Clean path) "/proj/projects/01/Xor.hdl"
                 then inl Example.docSource else inr ErrNotExist;
               WalkDir := fun _ => [];
               Marshal := fun _ => None;
               SendNotification := fun _ => None |} in
  let previous := {| TargetUri := "file:///proj/tools/builtInChips/Not.hdl";
                     TargetRange := Previous.zeroRange;
                     TargetSelectionRange := Previous.zeroRange |} in
  (Previous.OnDefinition w Example.request Example.server0 = Done (Some [previous]) /\
   exists loc,
     OnDefinition w Example.request Example.server0 = Done (Some [loc]) /\
     TargetUri loc = TargetUri previous) /\
  (Previous.OnDefinition w' Example.request Example.server0 = Done (Some [previous]) /\
   OnDefinition w' Example.request Example.server0 = Fail ErrNotExist).
Proof.
  intros w w' previous. split.
  - destruct (OnDefinition_extends_previous w Example.request Example.server0)
      as (_ & _ & _ & _ & H).
    destruct (H Example.docSource 53 Example.docPart Example.docChipName "Not")
      as (Hp & Hd & _ & _); try reflexivity.
    split; [exact Hp |].
    destruct (Hd Example.notSource) as (loc & Hl & Hu); [reflexivity |].
    exists loc. split; [exact Hl |]. rewrite Hu. reflexivity.
  - destruct (OnDefinition_extends_previous w' Example.request Example.server0)
      as (_ & _ & _ & _ & H).
    destruct (H Example.docSource 53 Example.docPart Example.docChipName "Not")
      as (Hp & _ & Hf & _); try reflexivity.
    split; [exact Hp |]. apply Hf. reflexivity.
Defined.

(** ** The directories of a document *)

Lemma Split_no_sep (e : string) (sep : ascii) :
  occurs sep e = false -> strings.Split e sep = [e].
Proof.
  induction e as [| c e IH]; [reflexivity |].
  cbn [occurs strings.Split]. intros H. apply orb_false_iff in H as [Hc He].
  rewrite Hc, (IH He). reflexivity.
Qed.

Lemma Split_app_sep (a b : string) (sep : ascii) :
  strings.Split (a +:+ String sep b) sep = strings.Split a sep ++ strings.Split b sep.
Proof.
  induction a as [| c a IH].
  - change (EmptyString +:+ String sep b) with (String sep b).
    cbn [strings.Split app]. now rewrite Ascii.eqb_refl.
  - rewrite append_cons. cbn [strings.Split]. rewrite IH.
    destruct (Ascii.eqb c sep); [reflexivity |].
    pose proof (Split_not_nil a sep) as Hne.
    now destruct (strings.Split a sep).
Qed.

Lemma Split_slashes (k : nat) (rest : string) :
  strings.Split (slashes k +:+ rest) filepath.Separator
    = repeat EmptyString k ++ strings.Split rest filepath.Separator.
Proof.
  induction k as [| k IH]; [reflexivity |].
  cbn [slashes repeat app]. rewrite append_cons. cbn [strings.Split].
  rewrite Ascii.eqb_refl. now rewrite IH.
Qed.

Lemma plainElem_no_sep (e : string) :
  plainElem e = true -> occurs filepath.Separator e = false.
Proof.
  unfold plainElem. intros H. apply andb_true_iff in H as [_ H].
  now apply negb_true_iff in H.
Qed.

Lemma cleanStep_plain (rooted : bool) (out : list string) (e : string) :
  plainElem e = true -> filepath.cleanStep rooted out e = e :: out.
Proof.
  unfold plainElem, filepath.cleanStep. intros H.
  apply andb_true_iff in H as [H _]. apply andb_true_iff in H as [H H3].
  apply andb_true_iff in H as [H1 H2].
  apply negb_true_iff in H1, H2, H3. now rewrite H1, H2, H3.
Qed.

Lemma fold_cleanStep_plain (rooted : bool) (es out : list string) :
  forallb plainElem es = true ->
  fold_left (filepath.cleanStep rooted) es out = List.rev es ++ out.
Proof.
  revert out. induction es as [| e es IH]; intros out H; [reflexivity |].
  cbn [forallb] in H. apply andb_true_iff in H as [He Hes].
  cbn [fold_left List.rev]. rewrite cleanStep_plain by exact He.
  rewrite IH by exact Hes. now rewrite <- app_assoc.
Qed.

Lemma fold_cleanStep_empties (rooted : bool) (k : nat) (out : list string) :
  fold_left (filepath.cleanStep rooted) (repeat EmptyString k) out = out.
Proof. induction k as [| k IH]; [reflexivity | exact IH]. Qed.

(** Two [..] elements on a stack of plain elements of a rooted path take
    the top two off, as far as there are any. *)
Lemma fold_cleanStep_up2 (out : list string) :
  forallb plainElem out = true ->
  fold_left (filepath.cleanStep true) [".."; ".."] out = skipn 2 out.
Proof.
  assert (Hpop : forall x st, plainElem x = true ->
                   filepath.cleanStep true (x :: st) ".." = st).
  { intros x st Hx. unfold plainElem in Hx. unfold filepath.cleanStep.
    apply andb_true_iff in Hx as [Hx _]. apply andb_true_iff in Hx as [_ Hx].
    apply negb_true_iff in Hx. cbn [String.eqb Ascii.eqb Bool.eqb orb andb].
    now rewrite Hx. }
  intros H. destruct out as [| x [| y out]]; [reflexivity | |].
  - cbn [forallb] in H. apply andb_true_iff in H as [Hx _].
    cbn [fold_left]. now rewrite Hpop.
  - cbn [forallb] in H. apply andb_true_iff in H as [Hx H].
    apply andb_true_iff in H as [Hy _].
    cbn [fold_left]. now rewrite !Hpop.
Qed.

(** The elements of a path of plain elements, each followed by a
    separator. *)
Lemma Split_Join_plain (dirs : list string) (rest : string) :
  forallb plainElem dirs = true ->
  strings.Split (strings.Join (dirs ++ [rest]) "/") filepath.Separator
    = dirs ++ strings.Split rest filepath.Separator.
Proof.
  induction dirs as [| d dirs IH]; intros H; [reflexivity |].
  cbn [forallb] in H. apply andb_true_iff in H as [Hd Hdirs].
  cbn [app]. replace (strings.Join (d :: dirs ++ [rest]) "/")
    with (d +:+ String filepath.Separator (strings.Join (dirs ++ [rest]) "/"))
    by (destruct dirs; reflexivity).
  rewrite Split_app_sep, Split_no_sep by now apply plainElem_no_sep.
  now rewrite IH.
Qed.

Lemma HasPrefix_slash (rest : string) :
  strings.HasPrefix (String filepath.Separator rest) "/" = true.
Proof.
  unfold strings.HasPrefix. apply String.prefix_correct.
  cbn. now destruct rest.
Qed.

(** [Clean] of a rooted path, by its elements. *)
Lemma Clean_rooted (rest : string) :
  filepath.Clean (String filepath.Separator rest) =
    "/" +:+ strings.Join
              (List.rev (fold_left (filepath.cleanStep true)
                           (strings.Split rest filepath.Separator) [])) "/".
Proof.
  unfold filepath.Clean. cbn [String.eqb]. rewrite HasPrefix_slash.
  cbn [strings.Split]. now rewrite Ascii.eqb_refl.
Qed.

Lemma forallb_rev {A : Type} (f : A -> bool) (l : list A) :
  forallb f l = true -> forallb f (List.rev l) = true.
Proof.
  rewrite !forallb_forall. intros H x Hx. apply H. now apply in_rev.
Qed.

Lemma forallb_skipn {A : Type} (f : A -> bool) (n : nat) (l : list A) :
  forallb f l = true -> forallb f (skipn n l) = true.
Proof.
  revert l. induction n as [| n IH]; intros l H; [exact H |].
  destruct l as [| x l]; [reflexivity |].
  cbn [forallb] in H. apply andb_true_iff in H as [_ H]. now apply IH.
Qed.

Lemma skipn_rev_removelast {A : Type} (l : list A) :
  skipn 2 (List.rev l) = List.rev (removelast (removelast l)).
Proof.
  destruct l as [| a l] using rev_ind; [reflexivity |].
  rewrite rev_app_distr, removelast_last. cbn [List.rev app skipn].
  destruct l as [| b l _] using rev_ind; [reflexivity |].
  now rewrite rev_app_distr, removelast_last.
Qed.

Lemma Join_snoc (dirs : list string) (x : string) :
  strings.Join (dirs ++ [x]) "/" = strings.Join (dirs ++ [EmptyString]) "/" +:+ x.
Proof.
  induction dirs as [| d dirs IH]; [reflexivity |].
  cbn [app].
  replace (strings.Join (d :: dirs ++ [x]) "/")
    with (d +:+ "/" +:+ strings.Join (dirs ++ [x]) "/") by (destruct dirs; reflexivity).
  replace (strings.Join (d :: dirs ++ [EmptyString]) "/")
    with (d +:+ "/" +:+ strings.Join (dirs ++ [EmptyString]) "/")
    by (destruct dirs; reflexivity).
  now rewrite IH, !append_assoc.
Qed.

Lemma slashes_snoc (k : nat) : slashes (S k) = slashes k +:+ "/".
Proof.
  induction k as [| k IH]; [reflexivity |].
  change (String filepath.Separator (slashes (S k))
          = String filepath.Separator (slashes k +:+ "/")).
  now f_equal.
Qed.

(** The part of the path before the last element ends with a
    separator. *)
Lemma directory_part_ends (k : nat) (dirs : list string) :
  exists a, slashes (S k) +:+ strings.Join (dirs ++ [EmptyString]) "/" = a +:+ "/".
Proof.
  destruct dirs as [| d dirs].
  - exists (slashes k). cbn [app strings.Join]. now rewrite append_nil_r, slashes_snoc.
  - assert (H : exists j, strings.Join ((d :: dirs) ++ [EmptyString]) "/" = j +:+ "/").
    { revert d. induction dirs as [| d2 dirs IH]; intros d.
      - exists d. reflexivity.
      - destruct (IH d2) as [j Hj]. exists (d +:+ "/" +:+ j).
        replace (strings.Join ((d :: d2 :: dirs) ++ [EmptyString]) "/")
          with (d +:+ "/" +:+ strings.Join ((d2 :: dirs) ++ [EmptyString]) "/")
          by reflexivity.
        now rewrite Hj, !append_assoc. }
    destruct H as [j ->]. exists (slashes (S k) +:+ j). now rewrite append_assoc.
Qed.

Lemma dropToSeparator_app (x y : string) :
  occurs filepath.Separator x = false ->
  filepath.dropToSeparator (x +:+ String filepath.Separator y)
    = String filepath.Separator y.
Proof.
  induction x as [| c x IH]; intros H.
  - change (EmptyString +:+ String filepath.Separator y) with (String filepath.Separator y).
    cbn [filepath.dropToSeparator]. now rewrite Ascii.eqb_refl.
  - cbn [occurs] in H. apply orb_false_iff in H as [Hc Hx].
    rewrite append_cons. cbn [filepath.dropToSeparator]. rewrite Hc. now apply IH.
Qed.

Lemma fold_Split_Join (l : list string) :
  forallb plainElem l = true ->
  fold_left (filepath.cleanStep true)
            (strings.Split (strings.Join l "/") filepath.Separator) [] = List.rev l.
Proof.
  intros H. destruct l as [| a l] using rev_ind; [reflexivity |].
  rewrite forallb_app in H. apply andb_true_iff in H as [Hl Ha].
  cbn [forallb] in Ha. apply andb_true_iff in Ha as [Ha _].
  rewrite Split_Join_plain by exact Hl.
  rewrite Split_no_sep by now apply plainElem_no_sep.
  rewrite fold_cleanStep_plain, app_nil_r; [reflexivity |].
  rewrite forallb_app, Hl. cbn. now rewrite Ha.
Qed.

(** [Clean] of a clean rooted path followed by a separator and more
    elements. *)
Lemma Clean_extended (l tail : list string) (tailPath : string) :
  forallb plainElem l = true ->
  strings.Split tailPath filepath.Separator = tail ->
  filepath.Clean (("/" +:+ strings.Join l "/") +:+ "/" +:+ tailPath)
    = "/" +:+ strings.Join
                (List.rev (fold_left (filepath.cleanStep true) tail (List.rev l))) "/".
Proof.
  intros Hl Ht.
  change (("/" +:+ strings.Join l "/") +:+ "/" +:+ tailPath)
    with (String filepath.Separator
            (strings.Join l "/" +:+ String filepath.Separator tailPath)).
  rewrite Clean_rooted, Split_app_sep, fold_left_app, fold_Split_Join by exact Hl.
  now rewrite Ht.
Qed.

(** X6: For a document whose path is rooted and made of plain elements (the
    directories [dirs], then the file), however many separators it begins
    with: the directory of the document is the path of [dirs], and the
    built-in directory is [tools/builtInChips] under the directory two
    levels above it, the root when the document is less than two levels
    deep. *)
Theorem builtInChipsDir_layout (uri : string) (k : nat) (dirs : list string) (file : string) :
  forallb plainElem dirs = true ->
  occurs filepath.Separator file = false ->
  toFilePath uri = slashes (S k) +:+ strings.Join (dirs ++ [file]) "/" ->
  baseDir uri = "/" +:+ strings.Join dirs "/" /\
  builtInChipsDir uri =
    "/" +:+ strings.Join (removelast (removelast dirs) ++ ["tools"; "builtInChips"]) "/".
Proof.
  intros Hdirs Hfile Hpath.
  assert (Hbase : baseDir uri = "/" +:+ strings.Join dirs "/").
  { unfold baseDir, filepath.Dir. rewrite Hpath, Join_snoc, <- append_assoc.
    destruct (directory_part_ends k dirs) as [a Ha]. rewrite rev_app.
    rewrite Ha at 1. rewrite rev_app.
    change (strings.rev "/" +:+ strings.rev a)
      with (String filepath.Separator (strings.rev a)).
    rewrite dropToSeparator_app by now rewrite occurs_rev.
    change (String filepath.Separator (strings.rev a))
      with (strings.rev "/" +:+ strings.rev a).
    rewrite <- rev_app, rev_involutive, <- Ha.
    change (slashes (S k) +:+ strings.Join (dirs ++ [EmptyString]) "/")
      with (String filepath.Separator
              (slashes k +:+ strings.Join (dirs ++ [EmptyString]) "/")).
    rewrite Clean_rooted, Split_slashes, Split_Join_plain by exact Hdirs.
    cbn [strings.Split].
    rewrite !fold_left_app, fold_cleanStep_empties.
    rewrite (fold_cleanStep_plain true dirs) by exact Hdirs.
    cbn [fold_left filepath.cleanStep String.eqb orb].
    now rewrite app_nil_r, List.rev_involutive. }
  split; [exact Hbase |].
  unfold builtInChipsDir. rewrite Hbase.
  set (up := removelast (removelast dirs)).
  assert (Hup : List.rev (skipn 2 (List.rev dirs)) = up).
  { unfold up. now rewrite skipn_rev_removelast, List.rev_involutive. }
  assert (Hplain : forallb plainElem up = true).
  { rewrite <- Hup. now apply forallb_rev, forallb_skipn, forallb_rev. }
  assert (H1 : filepath.Join ["/" +:+ strings.Join dirs "/"; ".."; ".."]
               = "/" +:+ strings.Join up "/").
  { change (filepath.Join ["/" +:+ strings.Join dirs "/"; ".."; ".."])
      with (filepath.Clean (("/" +:+ strings.Join dirs "/") +:+ "/" +:+ "../..")).
    rewrite (Clean_extended dirs [".."; ".."]) by (exact Hdirs || reflexivity).
    rewrite fold_cleanStep_up2 by now apply forallb_rev.
    now rewrite Hup. }
  rewrite H1.
  assert (H2 : filepath.Clean ("/" +:+ strings.Join up "/") = "/" +:+ strings.Join up "/").
  { change ("/" +:+ strings.Join up "/")
      with (String filepath.Separator (strings.Join up "/")) at 1.
    rewrite Clean_rooted, fold_Split_Join by exact Hplain.
    now rewrite List.rev_involutive. }
  rewrite H2.
  change (filepath.Join ["/" +:+ strings.Join up "/"; "tools"; "builtInChips"])
    with (filepath.Clean (("/" +:+ strings.Join up "/") +:+ "/" +:+ "tools/builtInChips")).
  rewrite (Clean_extended up ["tools"; "builtInChips"]) by (exact Hplain || reflexivity).
  cbn [fold_left filepath.cleanStep String.eqb Ascii.eqb Bool.eqb orb andb].
  cbn [List.rev]. now rewrite List.rev_involutive, <- app_assoc.
Qed.

(** The document [/proj/projects/01/Xor.hdl], whose URI leaves three
    separators in front, and a document right under the root. *)
Lemma builtInChipsDir_layout_witness :
  (baseDir Example.docUri = "/proj/projects/01" /\
   builtInChipsDir Example.docUri = "/proj/tools/builtInChips") /\
  (baseDir "file:///Xor.hdl" = "/" /\
   builtInChipsDir "file:///Xor.hdl" = "/tools/builtInChips").
Proof.
  split.
  - apply (builtInChipsDir_layout Example.docUri 2 ["proj"; "projects"; "01"] "Xor.hdl");
      reflexivity.
  - apply (builtInChipsDir_layout "file:///Xor.hdl" 2 [] "Xor.hdl"); reflexivity.
Defined.
